(** * Relay: the synchronization engine (SyncFile) and the connection
    state machine (HasProvider)

    A shallow embedding of [SyncFile] and [HasProvider] and the properties
    of their push/pull decision engine and of their connection life
    cycle.  Asynchronous methods are embedded as computations in a state
    and exception monad; every call to the content-addressable store, to
    the local byte store and to the shared document is recorded in a
    trace, so that statements of the form "no write is performed" are
    statements about that trace. *)

From Stdlib Require Import ZArith Strings.Byte Ascii String List Lia Bool.
From stdpp Require Import base option list gmap strings.

Local Open Scope Z_scope.

(** ** JavaScript values *)

Module JS.

(** [ToBoolean]: what [!x], [x || y], [x && y] and [if (x)] look at. *)
Class Truthy (A : Type) := truthy : A -> bool.

#[export] Instance truthy_bool : Truthy bool := fun b => b.

(** Every string but the empty one is truthy. *)
#[export] Instance truthy_string : Truthy string :=
  fun s => match s with EmptyString => false | String _ _ => true end.

(** Every number but zero is truthy (timestamps are integers here). *)
#[export] Instance truthy_Z : Truthy Z := fun z => negb (z =? 0).

(** [undefined] and [null] are falsy. *)
#[export] Instance truthy_option {A} `{Truthy A} : Truthy (option A) :=
  fun o => match o with None => false | Some a => truthy a end.

(** [x || d] *)
Definition or_else {A} `{Truthy A} (x : option A) (d : A) : A :=
  match x with
  | Some a => if truthy a then a else d
  | None => d
  end.

(** [a !== b] on values that are a string or [undefined]. *)
Definition strict_neq (a b : option string) : bool :=
  negb (bool_decide (a = b)).

(** [s.split(sep)] for a one character separator. *)
Fixpoint split (sep : ascii) (s : string) : list string :=
  match s with
  | EmptyString => [EmptyString]
  | String a rest =>
      if Ascii.eqb a sep then EmptyString :: split sep rest
      else match split sep rest with
           | seg :: segs => String a seg :: segs
           | [] => [String a EmptyString]
           end
  end.

(** [s.split(sep).pop()], with the empty string for a falsy result. *)
Definition split_pop (sep : ascii) (s : string) : string :=
  List.last (split sep s) EmptyString.

(** [s.replace(pat, empty)] with a string pattern: the first occurrence
    goes. *)
Fixpoint replace_first (pat s : string) : string :=
  if String.prefix pat s
  then String.substring (String.length pat)
         (String.length s - String.length pat)%nat s
  else match s with
       | EmptyString => EmptyString
       | String a rest => String a (replace_first pat rest)
       end.

End JS.

Import JS.

(** ** Outcomes of calls *)

(** The failures the two components know about.  The source throws
    [Error] objects that differ in their message only; the constructors
    name the messages. *)
Inductive Error :=
| ServerHashMissing            (* "<path> no server hash for item" *)
| ServerContentMissing         (* "<path> (<hash>) item missing from server" *)
| LocalMaterializationMissing  (* "TFile API used before file existed" *)
| CasWriteRefused              (* a rejected [cas.writeFile] *)
| CasBlobMissing               (* a rejected [cas.readFile] *)
| ByteStoreFailure             (* a rejected vault read or write *)
| TokenAcquisitionTimeout
| TokenAcquisitionFailure
| TransportConnectFailure.

(** A call returns (an awaited promise resolves) or throws (rejects). *)
Inductive Outcome (A : Type) :=
| Returned (a : A)
| Thrown (e : Error).
Arguments Returned {A} a.
Arguments Thrown {A} e.

(** A promise object.  It is an object, so it is truthy whatever it
    settles to. *)
Record Promise (A : Type) := { settled : Outcome A }.
Arguments settled {A} p.

#[export] Instance truthy_promise {A} : Truthy (Promise A) := fun _ => true.

(** State and exception monad: what a method did to the state before it
    threw stays done. *)
Definition M (S A : Type) : Type := S -> Outcome A * S.

Definition ret {S A} (a : A) : M S A := fun s => (Returned a, s).

Definition throw {S A} (e : Error) : M S A := fun s => (Thrown e, s).

Definition bind {S A B} (c : M S A) (k : A -> M S B) : M S B :=
  fun s => match c s with
           | (Returned a, s') => k a s'
           | (Thrown e, s') => (Thrown e, s')
           end.

(** [try { c } catch (e) { h(e) }] *)
Definition try_catch {S A} (c : M S A) (h : Error -> M S A) : M S A :=
  fun s => match c s with
           | (Returned a, s') => (Returned a, s')
           | (Thrown e, s') => h e s'
           end.

(** Calling an async function without awaiting it: its body runs, and the
    caller holds the promise. *)
Definition unawaited {S A} (c : M S A) : M S (Promise A) :=
  fun s => let '(o, s') := c s in (Returned {| settled := o |}, s').

Definition gets {S A} (f : S -> A) : M S A := fun s => (Returned (f s), s).

Definition modify {S} (f : S -> S) : M S unit := fun s => (Returned tt, f s).

Notation "'let*' x ':=' c 'in' k" := (bind c (fun x => k))
  (at level 10, x name, c at level 100, k at level 200).
Notation "'do*' c 'in' k" := (bind c (fun _ => k))
  (at level 10, c at level 100, k at level 200).

(** ** Resource addresses *)

(** Modelled from the spec: the closed set of address classes of the
    module [S3RN], which is not among the sources; both components build
    them and test them with [instanceof]. *)
Inductive S3RNType :=
| S3File (folderId fileId : string)
| S3RemoteFile (relayId folderId fileId : string)
| S3Document (folderId documentId : string)
| S3Folder (folderId : string)
| S3RemoteDocument (relayId folderId documentId : string)
| S3RemoteFolder (relayId folderId : string).

(** An address that names a relay. *)
Definition is_remote (a : S3RNType) : bool :=
match a with
| S3RemoteFile _ _ _ | S3RemoteDocument _ _ _ | S3RemoteFolder _ _ => true
| S3File _ _ | S3Document _ _ | S3Folder _ => false
end.

(** ** Hasher *)

Module Hasher.

Definition hex_digit (n : N) : ascii :=
  match n with
  | 0 => "0" | 1 => "1" | 2 => "2" | 3 => "3" | 4 => "4" | 5 => "5"
  | 6 => "6" | 7 => "7" | 8 => "8" | 9 => "9" | 10 => "a" | 11 => "b"
  | 12 => "c" | 13 => "d" | 14 => "e" | _ => "f"
  end%N%char.

(** [b.toString(16).padStart(2, "0")] *)
Definition hex_byte (b : byte) : string :=
  let n := Byte.to_N b in
  String (hex_digit (n / 16)%N) (String (hex_digit (n mod 16)%N) EmptyString).

(** [hashArray.map(...).join(empty)] *)
Fixpoint hex (bs : list byte) : string :=
  match bs with
  | [] => EmptyString
  | b :: rest => hex_byte b +:+ hex rest
  end.

Section WithDigest.

(** [crypto.subtle.digest("SHA-256", _)] *)
Variable digest : list byte -> list byte.

Definition generateHash (content : list byte) : string :=
  hex (digest content).

End WithDigest.

End Hasher.

(** ** Synchronization engine *)

Module SyncFile.

(** [FileStats] and [TFile] of the host application. *)
Record FileStats := { ctime : Z; mtime : Z; size : Z }.

Record TFile := { tf_path : string; tf_stat : FileStats }.

(** What the vault holds at a path ([TAbstractFile]). *)
Inductive AbstractFile :=
| VFile (content : list byte) (st : FileStats)
| VFolder.

(** The metadata handed to [cas.writeFile]. *)
Record FileMeta := {
  fm_guid : string;
  fm_name : string;
  fm_synchash : string;
  fm_ctime : Z;
  fm_mtime : Z;
  fm_parent : option string;
  fm_is_directory : bool;
  fm_synctime : Z
}.

(** The metadata record the store answers with: it carries the store's
    id. *)
Record FileInfo := { fi_id : nat; fi_meta : FileMeta }.

Definition fi_guid (fi : FileInfo) : string := fm_guid (fi_meta fi).
Definition fi_synchash (fi : FileInfo) : string := fm_synchash (fi_meta fi).

(** Records and file handles are objects: truthy. *)
#[export] Instance truthy_FileInfo : Truthy FileInfo := fun _ => true.

#[export] Instance truthy_TFile : Truthy TFile := fun _ => true.

Definition CasRecord : Type := FileInfo * list byte.

(** The sets of one [ydoc.transact] batch. *)
Inductive MapOp :=
| SetHash (guid hash : string)
| SetSyncTime (guid : string) (t : Z).

(** Calls that leave the component. *)
Inductive Event :=
| VaultReadBinary (p : string)
| VaultWriteBinary (p : string) (b : list byte)
| CasGetByHash (h : string)
| CasReadFile (id : nat)
| CasWriteFile (m : FileMeta) (b : list byte)
| YTransact (ops : list MapOp).

Definition is_vault_write (e : Event) : bool :=
  match e with VaultWriteBinary _ _ => true | _ => false end.

Definition is_cas_write (e : Event) : bool :=
  match e with CasWriteFile _ _ => true | _ => false end.

Definition is_transact (e : Event) : bool :=
  match e with YTransact _ => true | _ => false end.

(** Modelled from the spec: the owning [SharedFolder], whose class is not
    among the sources, as far as a file looks at it. *)
Record SharedFolder := {
  sf_guid : string;
  sf_relayId : option string;
  sf_s3rn : S3RNType;
  sf_shouldConnect : bool;
  sf_connect : Outcome bool   (* what [sharedFolder.connect()] settles to *)
}.

(** Everything a file shares with the rest of the program. *)
Record World := {
  vault : gmap string AbstractFile;
  cas : list CasRecord;
  hashes : gmap string string;
  synctimes : gmap string Z;
  folder : SharedFolder;
  clock : Z;              (* what [Date.now()] reads next *)
  ticks : list Z;         (* by how much the clock moves after each reading *)
  uuids : list string;    (* what [uuidv4()] draws next *)
  trace : list Event
}.

(** The mutable fields of a [SyncFile]. *)
Record t := {
  s3rn : S3RNType;
  _tfile : option TFile;
  _filehash : option string;
  name : string;
  extension : string;
  synctime : Z;
  basename : string;
  connected : bool;
  path : string;
  guid : string
}.

Definition State : Type := t * World.

Definition set_tfile (v : option TFile) (f : t) : t :=
  {| s3rn := s3rn f; _tfile := v; _filehash := _filehash f; name := name f;
     extension := extension f; synctime := synctime f; basename := basename f;
     connected := connected f; path := path f; guid := guid f |}.

Definition set_filehash (v : option string) (f : t) : t :=
  {| s3rn := s3rn f; _tfile := _tfile f; _filehash := v; name := name f;
     extension := extension f; synctime := synctime f; basename := basename f;
     connected := connected f; path := path f; guid := guid f |}.

Definition set_synctime (v : Z) (f : t) : t :=
  {| s3rn := s3rn f; _tfile := _tfile f; _filehash := _filehash f;
     name := name f; extension := extension f; synctime := v;
     basename := basename f; connected := connected f; path := path f;
     guid := guid f |}.

Definition set_connected (v : bool) (f : t) : t :=
  {| s3rn := s3rn f; _tfile := _tfile f; _filehash := _filehash f;
     name := name f; extension := extension f; synctime := synctime f;
     basename := basename f; connected := v; path := path f;
     guid := guid f |}.

Definition set_s3rn (v : S3RNType) (f : t) : t :=
  {| s3rn := v; _tfile := _tfile f; _filehash := _filehash f;
     name := name f; extension := extension f; synctime := synctime f;
     basename := basename f; connected := connected f; path := path f;
     guid := guid f |}.

Definition set_path (p n e b : string) (f : t) : t :=
  {| s3rn := s3rn f; _tfile := _tfile f; _filehash := _filehash f;
     name := n; extension := e; synctime := synctime f;
     basename := b; connected := connected f; path := p;
     guid := guid f |}.

Definition set_vault (v : gmap string AbstractFile) (w : World) : World :=
  {| vault := v; cas := cas w; hashes := hashes w; synctimes := synctimes w;
     folder := folder w; clock := clock w; ticks := ticks w;
     uuids := uuids w; trace := trace w |}.

Definition set_cas (c : list CasRecord) (w : World) : World :=
  {| vault := vault w; cas := c; hashes := hashes w;
     synctimes := synctimes w; folder := folder w; clock := clock w;
     ticks := ticks w; uuids := uuids w; trace := trace w |}.

Definition set_maps (h : gmap string string) (s : gmap string Z) (w : World)
  : World :=
  {| vault := vault w; cas := cas w; hashes := h; synctimes := s;
     folder := folder w; clock := clock w; ticks := ticks w;
     uuids := uuids w; trace := trace w |}.

Definition set_clock (c : Z) (tk : list Z) (w : World) : World :=
  {| vault := vault w; cas := cas w; hashes := hashes w;
     synctimes := synctimes w; folder := folder w; clock := c; ticks := tk;
     uuids := uuids w; trace := trace w |}.

Definition set_uuids (u : list string) (w : World) : World :=
  {| vault := vault w; cas := cas w; hashes := hashes w;
     synctimes := synctimes w; folder := folder w; clock := clock w;
     ticks := ticks w; uuids := u; trace := trace w |}.

Definition set_trace (tr : list Event) (w : World) : World :=
  {| vault := vault w; cas := cas w; hashes := hashes w;
     synctimes := synctimes w; folder := folder w; clock := clock w;
     ticks := ticks w; uuids := uuids w; trace := tr |}.

(** Access to the two halves of the state. *)
Definition this : M State t := gets fst.
Definition world : M State World := gets snd.
Definition update_this (g : t -> t) : M State unit :=
  modify (fun s => (g (fst s), snd s)).
Definition update_world (g : World -> World) : M State unit :=
  modify (fun s => (fst s, g (snd s))).
Definition emit (e : Event) : M State unit :=
  update_world (fun w => set_trace (trace w ++ [e]) w).

(** [Date.now()] *)
Definition Date_now : M State Z :=
  let* w := world in
  do* update_world (set_clock (clock w + List.hd 0 (ticks w)) (List.tl (ticks w))) in
  ret (clock w).

(** [uuidv4()] *)
Definition uuidv4 : M State string :=
  let* w := world in
  do* update_world (set_uuids (List.tl (uuids w))) in
  ret (List.hd EmptyString (uuids w)).

(** *** The collaborators *)

(** Modelled from the spec: [getByHash(hash)] of the content-addressable
    store [sharedFolder.cas], whose class is not among the sources.  The
    store holds byte blobs keyed by an opaque id and indexed by content
    hash; the lookup answers with the metadata of a record of that hash,
    or with [undefined]. *)
Definition lookup_hash (c : list CasRecord) (h : string) : option FileInfo :=
  fst <$> List.find (fun r => String.eqb (fi_synchash (fst r)) h) c.

(** Modelled from the spec: [readFile(id)] of the store, the bytes of the
    record of that id. *)
Definition lookup_id (c : list CasRecord) (id : nat) : option (list byte) :=
  snd <$> List.find (fun r => Nat.eqb (fi_id (fst r)) id) c.

(** Modelled from the spec: the id [writeFile] gives a new record; no
    record of the store has it. *)
Definition fresh_id (c : list CasRecord) : nat :=
  S (List.fold_right Nat.max O (List.map (fun r => fi_id (fst r)) c)).

Section Engine.

(** [crypto.subtle.digest("SHA-256", _)] *)
Variable digest : list byte -> list byte.

(** [sharedFolder.getPath]: from a path in the shared folder to a path in
    the vault. *)
Variable getPath : string -> string.

(** The writes the store refuses. *)
Variable refuses : list CasRecord -> FileMeta -> list byte -> bool.

Definition generateHash : list byte -> string := Hasher.generateHash digest.

(** Modelled from the spec: the three calls of the store.  A write
    creates a new record under a fresh id and never touches one that is
    there; it can be refused (a duplicate, or any failure of the store),
    and which writes are refused is left to the policy [refuses]. *)
Definition cas_getByHash (h : string) : M State (option FileInfo) :=
  do* emit (CasGetByHash h) in
  let* w := world in
  ret (lookup_hash (cas w) h).

Definition cas_readFile (id : nat) : M State (list byte) :=
  do* emit (CasReadFile id) in
  let* w := world in
  match lookup_id (cas w) id with
  | Some b => ret b
  | None => throw CasBlobMissing
  end.

Definition cas_writeFile (m : FileMeta) (b : list byte) : M State nat :=
  do* emit (CasWriteFile m b) in
  let* w := world in
  if refuses (cas w) m b then throw CasWriteRefused
  else
    let id := fresh_id (cas w) in
    do* update_world
          (set_cas (cas w ++ [({| fi_id := id; fi_meta := m |}, b)])) in
    ret id.

(** Modelled from the spec: the local byte store (the vault and its
    adapter), which the engine consumes as a read/write contract on named
    byte blobs.  Reading the bytes behind a handle fails when no file is
    there; writing at a path creates or replaces the file there and fails
    when the path names a folder. *)
Definition vault_getAbstractFileByPath (p : string)
  : M State (option AbstractFile) :=
  let* w := world in ret (vault w !! p).

Definition vault_readBinary (tf : TFile) : M State (list byte) :=
  do* emit (VaultReadBinary (tf_path tf)) in
  let* w := world in
  match vault w !! tf_path tf with
  | Some (VFile content _) => ret content
  | _ => throw ByteStoreFailure
  end.

Definition written_stat (old : option AbstractFile) (now : Z)
    (content : list byte) : FileStats :=
  {| ctime := match old with Some (VFile _ st) => ctime st | _ => now end;
     mtime := now;
     size := Z.of_nat (List.length content) |}.

Definition adapter_writeBinary (p : string) (content : list byte)
  : M State unit :=
  do* emit (VaultWriteBinary p content) in
  let* w := world in
  match vault w !! p with
  | Some VFolder => throw ByteStoreFailure
  | old =>
      update_world
        (set_vault (<[p := VFile content (written_stat old (clock w) content)]>
                      (vault w)))
  end.

(** [ydoc.transact]: the sets of the batch are applied together. *)
Definition apply_op (o : MapOp) (w : World) : World :=
  match o with
  | SetHash g h => set_maps (<[g := h]> (hashes w)) (synctimes w) w
  | SetSyncTime g ts => set_maps (hashes w) (<[g := ts]> (synctimes w)) w
  end.

Definition ydoc_transact (ops : list MapOp) : M State unit :=
  do* emit (YTransact ops) in
  update_world (fun w => List.fold_left (fun w o => apply_op o w) ops w).

(** *** The methods of [SyncFile] *)

(** What the constructor is given as [hashOrFile]. *)
Inductive HashOrFile :=
| GivenFile (tf : TFile)
| GivenHash (h : string)
| GivenNothing.

Definition name_of (p : string) : string := split_pop "/" p.
Definition extension_of (n : string) : string := split_pop "." n.
Definition basename_of (n : string) : string :=
  replace_first (String "." (extension_of n)) n.

Definition as_TFile (p : string) (o : option AbstractFile) : option TFile :=
  match o with
  | Some (VFile _ st) => Some {| tf_path := p; tf_stat := st |}
  | _ => None
  end.

(** [new SyncFile(path, hashOrFile, guid, relayManager, parent)], [parent]
    being the shared folder of [w]. *)
Definition constructor (p : string) (hashOrFile : HashOrFile) (g : string)
    (w : World) : t :=
  let given :=
    match hashOrFile with GivenFile tf => Some tf | _ => None end in
  let tfile :=
    match as_TFile (getPath p) (vault w !! getPath p) with
    | Some tf => Some tf
    | None => given
    end in
  {| s3rn := match sf_relayId (folder w) with
             | Some r => if truthy r
                         then S3RemoteFile r (sf_guid (folder w)) g
                         else S3File (sf_guid (folder w)) g
             | None => S3File (sf_guid (folder w)) g
             end;
     _tfile := tfile;
     _filehash := match hashOrFile with GivenHash h => Some h | _ => None end;
     name := name_of p;
     extension := extension_of (name_of p);
     synctime := or_else (mtime <$> (tf_stat <$> tfile)) 0;
     basename := basename_of (name_of p);
     connected := true;
     path := p;
     guid := g |}.

Definition disconnect : M State unit := update_this (set_connected false).

(** [get tfile] *)
Definition tfile : M State TFile :=
  let* f := this in
  let* abstractFile := vault_getAbstractFileByPath (getPath (path f)) in
  match as_TFile (getPath (path f)) abstractFile with
  | Some tf => ret tf
  | None => throw LocalMaterializationMissing
  end.

(** [get stat] *)
Definition stat : M State FileStats :=
  let* tf := tfile in ret (tf_stat tf).

Definition updateStats : M State unit :=
  let* tf := tfile in
  let* content := vault_readBinary tf in
  update_this (set_filehash (Some (generateHash content))).

Definition move (newPath : string) : M State unit :=
  let* f := this in
  if String.eqb newPath (path f) then ret tt
  else
    do* update_this
          (set_path newPath (name_of newPath)
             (extension_of (name_of newPath))
             (basename_of (name_of newPath))) in
    let* _ := unawaited updateStats in
    ret tt.

(** [get serverHash] *)
Definition serverHash : M State (option string) :=
  gets (fun s => hashes (snd s) !! guid (fst s)).

(** [get shouldPull] *)
Definition shouldPull : M State bool :=
  gets (fun s =>
          synctime (fst s) <? or_else (synctimes (snd s) !! guid (fst s)) 0).

Definition getRemote : M State (option FileInfo) :=
  let* sh := serverHash in
  match sh with
  | Some h => if truthy h then cas_getByHash h else ret None
  | None => ret None
  end.

(** [get shouldPush].  The getter does not await [getRemote()]: it looks
    at the promise. *)
Definition shouldPush : M State bool :=
  let* f := this in
  let* w := world in
  let serverOutOfDate := or_else (synctimes w !! guid f) 0 <? synctime f in
  let* remote := unawaited getRemote in
  let serverHasContent := negb (negb (truthy remote)) in
  ret (serverOutOfDate || negb serverHasContent).

(** [get isStale] *)
Definition isStale : M State bool :=
  gets (fun s => strict_neq (_filehash (fst s))
                   (hashes (snd s) !! guid (fst s))).

Definition push : M State string :=
  let* fileInfo := getRemote in
  do* updateStats in
  let* tf := tfile in
  let* content := vault_readBinary tf in
  let hash := generateHash content in
  do* (if strict_neq (fi_synchash <$> fileInfo) (Some hash)
       then
         try_catch
           (let* g := match fileInfo with
                      | Some fi => ret (fi_guid fi)
                      | None => uuidv4
                      end in
            let* f := this in
            let* st_c := stat in
            let* st_m := stat in
            let* now := Date_now in
            let* _ := cas_writeFile
                        {| fm_guid := g;
                           fm_name := name f;
                           fm_synchash := hash;
                           fm_ctime := ctime st_c;
                           fm_mtime := mtime st_m;
                           fm_parent := None;
                           fm_is_directory := false;
                           fm_synctime := now |}
                        content in
            ret tt)
           (fun _ => ret tt)   (* ignore duplicates *)
       else ret tt) in
  let* now := Date_now in
  do* update_this (set_synctime now) in
  let* f := this in
  let* w := world in
  do* (if strict_neq (hashes w !! guid f) (Some hash)
       then ydoc_transact [SetHash (guid f) hash;
                           SetSyncTime (guid f) (synctime f)]
       else ret tt) in
  ret hash.

Definition pull : M State unit :=
  let* sh := serverHash in
  match sh with
  | None => throw ServerHashMissing
  | Some h =>
      if negb (truthy h) then throw ServerHashMissing
      else
        let* _ := unawaited (cas_getByHash h) in
        let* fileInfo := getRemote in
        if negb (truthy fileInfo) then throw ServerContentMissing
        else
          match fileInfo with
          | None => throw ServerContentMissing
          | Some fi =>
              let* content := cas_readFile (fi_id fi) in
              let* f := this in
              do* adapter_writeBinary (getPath (path f)) content in
              do* update_this
                    (set_filehash (Some (generateHash content))) in
              let* abstractFile :=
                vault_getAbstractFileByPath (getPath (path f)) in
              update_this
                (set_tfile (as_TFile (getPath (path f)) abstractFile))
          end
  end.

Definition getHash (compute : bool) : M State (option string) :=
  let* f := this in
  do* (if bool_decide (_filehash f = None) || compute
       then updateStats else ret tt) in
  let* f := this in
  ret (_filehash f).

Definition sync : M State unit :=
  let* f := this in
  if negb (connected f) then ret tt
  else if negb (truthy (_tfile f)) then pull
  else
    let* _ := getHash true in
    let* stale := isStale in
    let* behind := shouldPull in
    if stale && behind then pull else do* push in ret tt.

(** [connect()].  The address is replaced on the [S3Document] branch
    only. *)
Definition connect : M State bool :=
  let* w := world in
  match sf_s3rn (folder w) with
  | S3Folder _ => ret false   (* Local only *)
  | _ =>
      let* f := this in
      do* match s3rn f with
          | S3Document _ _ =>
              (* convert to remote document *)
              if truthy (sf_relayId (folder w))
              then update_this
                     (set_s3rn
                        (S3RemoteFile (default EmptyString (sf_relayId (folder w)))
                           (sf_guid (folder w)) (guid f)))
              else update_this
                     (set_s3rn (S3File (sf_guid (folder w)) (guid f)))
          | _ => ret tt
          end in
      if negb (sf_shouldConnect (folder w)) then ret false
      else
        match sf_connect (folder w) with
        | Returned _ =>
            do* update_this (set_connected true) in
            let* f := this in
            ret (connected f)
        | Thrown e => throw e
        end
  end.

End Engine.

End SyncFile.

(** ** Connection state machine *)

Module HasProvider.

Inductive ConnectionStatus :=
| StatusConnected
| StatusConnecting
| StatusDisconnected
| StatusUnknown.

Inductive ConnectionIntent :=
| IntentConnected
| IntentDisconnected.

(** [enum readyState] *)
Definition CONNECTING : Z := 0.
Definition OPEN : Z := 1.
Definition CLOSING : Z := 2.
Definition CLOSED : Z := 3.

(** [readyStateMap[k]]: a key the object literal does not have reads
    [undefined]. *)
Definition readyStateMap (k : Z) : option ConnectionStatus :=
  match k with
  | 3 => Some StatusDisconnected
  | 2 => Some StatusDisconnected
  | 1 => Some StatusConnected
  | 0 => Some StatusConnecting
  | _ => None
  end.

Record ConnectionState := {
  status : option ConnectionStatus;
  intent : ConnectionIntent
}.

Record ClientToken := { ct_url : string; ct_token : string; expiryTime : Z }.

Record WebSocket := { readyState : Z }.

(** The fields of the transport ([YSweetProvider]) the handle reads and
    writes. *)
Record Provider := {
  url : string;
  shouldConnect : bool;
  wsUnsuccessfulReconnects : Z;
  ws : option WebSocket;
  synced : bool
}.

(** What the handle does that can be seen from outside. *)
Inductive Event :=
| Notified (listener : nat) (st : ConnectionState)
| SocketClosed
| TokenRequested (key : string) (p : string)
| ConnectCalled
| TransportConnect.

(** A [HasProvider].  A listener is known by the key it subscribed
    under; calling it is recorded in [log]. *)
Record t := {
  _provider : Provider;
  _s3rn : S3RNType;
  path : option string;
  clientToken : ClientToken;
  listeners : list nat;
  log : list Event
}.

Definition PROVIDER_MAX_ERRORS : Z := 3.

(** What the handle is given by its surroundings. *)
Record Env := {
  S3RN_encode : S3RNType -> string;
  (* the url of the transport [makeProvider] builds for a token and an
     address *)
  provider_url : ClientToken -> S3RNType -> string;
  (* what [tokenStore.getToken] settles to *)
  getToken : string -> string -> Outcome ClientToken;
  isIosApp : bool;
  (* whether the ten seconds pass before the token arrives *)
  tokenTimesOut : bool;
  (* whether the transport's [connect()] goes through *)
  transportOpens : Provider -> bool
}.

Definition set_provider (p : Provider) (hp : t) : t :=
  {| _provider := p; _s3rn := _s3rn hp; path := path hp;
     clientToken := clientToken hp; listeners := listeners hp;
     log := log hp |}.

Definition set_clientToken (c : ClientToken) (hp : t) : t :=
  {| _provider := _provider hp; _s3rn := _s3rn hp; path := path hp;
     clientToken := c; listeners := listeners hp; log := log hp |}.

Definition set_s3rn_field (a : S3RNType) (hp : t) : t :=
  {| _provider := _provider hp; _s3rn := a; path := path hp;
     clientToken := clientToken hp; listeners := listeners hp;
     log := log hp |}.

Definition set_listeners (l : list nat) (hp : t) : t :=
  {| _provider := _provider hp; _s3rn := _s3rn hp; path := path hp;
     clientToken := clientToken hp; listeners := l; log := log hp |}.

Definition set_log (l : list Event) (hp : t) : t :=
  {| _provider := _provider hp; _s3rn := _s3rn hp; path := path hp;
     clientToken := clientToken hp; listeners := listeners hp; log := l |}.

Definition set_url (u : string) (p : Provider) : Provider :=
  {| url := u; shouldConnect := shouldConnect p;
     wsUnsuccessfulReconnects := wsUnsuccessfulReconnects p; ws := ws p;
     synced := synced p |}.

Definition set_shouldConnect (b : bool) (p : Provider) : Provider :=
  {| url := url p; shouldConnect := b;
     wsUnsuccessfulReconnects := wsUnsuccessfulReconnects p; ws := ws p;
     synced := synced p |}.

Definition set_reconnects (n : Z) (p : Provider) : Provider :=
  {| url := url p; shouldConnect := shouldConnect p;
     wsUnsuccessfulReconnects := n; ws := ws p; synced := synced p |}.

Definition set_ws (s : option WebSocket) (p : Provider) : Provider :=
  {| url := url p; shouldConnect := shouldConnect p;
     wsUnsuccessfulReconnects := wsUnsuccessfulReconnects p; ws := s;
     synced := synced p |}.

Definition emit (e : Event) : M t unit :=
  modify (fun hp => set_log (log hp ++ [e]) hp).

Definition update_provider (g : Provider -> Provider) : M t unit :=
  modify (fun hp => set_provider (g (_provider hp)) hp).

(** [get state] *)
Definition state (hp : t) : ConnectionState :=
  {| status :=
       readyStateMap (or_else (readyState <$> ws (_provider hp)) CLOSED);
     intent := if shouldConnect (_provider hp)
               then IntentConnected else IntentDisconnected |}.

(** [get connected] *)
Definition connected (hp : t) : bool :=
  match status (state hp) with
  | Some StatusConnected => true
  | _ => false
  end.

Definition notifyListeners : M t unit :=
  modify (fun hp =>
            set_log (log hp ++ List.map (fun l => Notified l (state hp))
                                  (listeners hp)) hp).



(** [_provider.ws?.close()]: an open or opening socket starts closing. *)
Definition ws_close : M t unit :=
  let* hp := gets (fun hp => hp) in
  match ws (_provider hp) with
  | Some s =>
      do* emit SocketClosed in
      update_provider
        (set_ws (Some {| readyState :=
                           if (readyState s =? CLOSED)%Z then CLOSED
                           else CLOSING |}))
  | None => ret tt
  end.

Definition disconnect : M t unit :=
  do* update_provider (set_shouldConnect false) in
  do* ws_close in
  do* update_provider (set_ws None) in
  notifyListeners.

Section Handle.

Variable env : Env.

Definition getProviderToken : M t ClientToken :=
  let* hp := gets (fun hp => hp) in
  let key := S3RN_encode env (_s3rn hp) in
  let p := or_else (path hp) "unknown"%string in
  do* emit (TokenRequested key p) in
  let tokenPromise : M t ClientToken :=
    fun s => (getToken env key p, s) in
  if isIosApp env then tokenPromise
  else if tokenTimesOut env then throw TokenAcquisitionTimeout
  else tokenPromise.

Definition refreshProvider (tok : ClientToken) : M t unit :=
  do* modify (set_clientToken tok) in
  let* hp := gets (fun hp => hp) in
  let newUrl := provider_url env tok (_s3rn hp) in
  if negb (String.eqb (url (_provider hp)) newUrl)
  then
    do* update_provider (set_url newUrl) in
    do* update_provider (set_reconnects 0) in
    ws_close
  else ret tt.

(** [set s3rn(value)] *)
Definition set_s3rn (value : S3RNType) : M t unit :=
  do* modify (set_s3rn_field value) in
  let* hp := gets (fun hp => hp) in
  refreshProvider (clientToken hp).

(** The transport's own [connect()]: the intent becomes connected and,
    with no socket around, one is opened. *)
Definition provider_connect : M t unit :=
  do* emit TransportConnect in
  let* hp := gets (fun hp => hp) in
  if transportOpens env (_provider hp)
  then
    do* update_provider (set_shouldConnect true) in
    match ws (_provider hp) with
    | None => update_provider (set_ws (Some {| readyState := CONNECTING |}))
    | Some _ => ret tt
    end
  else throw TransportConnectFailure.

Definition connect : M t bool :=
  do* emit ConnectCalled in
  let* hp := gets (fun hp => hp) in
  if connected hp then ret true
  else
    try_catch
      (let* tok := getProviderToken in
       do* refreshProvider tok in
       do* provider_connect in
       do* notifyListeners in
       ret true)
      (fun _ => ret false).

(** The listener the constructor puts on the transport's
    [connection-error] event. *)
Definition onConnectionError : M t unit :=
  let* hp := gets (fun hp => hp) in
  let shouldReconnect :=
    truthy (url (_provider hp))
    && truthy (shouldConnect (_provider hp))
    && (wsUnsuccessfulReconnects (_provider hp) <? PROVIDER_MAX_ERRORS) in
  do* disconnect in
  if shouldReconnect
  then let* _ := unawaited connect in ret tt
  else ret tt.

(** A connection attempt that fails, as the transport goes through it:
    the socket reports the error, on which the listener above runs, and
    then closes without having been open, which the transport counts in
    [wsUnsuccessfulReconnects]. *)
Definition failed_attempt : M t unit :=
  do* onConnectionError in
  update_provider
    (fun p => set_reconnects (wsUnsuccessfulReconnects p + 1) p).

Fixpoint failed_attempts (n : nat) : M t unit :=
  match n with
  | O => ret tt
  | S k => do* failed_attempt in failed_attempts k
  end.

End Handle.

Definition is_connect_call (e : Event) : bool :=
  match e with ConnectCalled => true | _ => false end.

(** How often [connect()] has been called. *)
Definition connect_calls (hp : t) : nat :=
  List.length (List.filter is_connect_call (log hp)).

(** The condition under which the [connection-error] listener connects
    again. *)
Definition should_reconnect (hp : t) : bool :=
  truthy (url (_provider hp))
  && shouldConnect (_provider hp)
  && (wsUnsuccessfulReconnects (_provider hp) <? PROVIDER_MAX_ERRORS).

End HasProvider.

(** ** Closed forms

    What [getRemote] and [push] come to, written out; the lemmas below
    show that the methods compute exactly this. *)

Module SyncFileSteps.

Import SyncFile.

(** Appending to the trace. *)
Definition log (evs : list Event) (w : World) : World :=
  set_trace (trace w ++ evs) w.

(** The clock after one reading. *)
Definition tick (w : World) : World :=
  set_clock (clock w + List.hd 0 (ticks w)) (List.tl (ticks w)) w.

(** The remote metadata for [serverHash]. *)
Definition remote_of (f : t) (w : World) : option FileInfo :=
  match hashes w !! guid f with
  | Some (String a h) => lookup_hash (cas w) (String a h)
  | _ => None
  end.

Definition remote_events (f : t) (w : World) : list Event :=
  match hashes w !! guid f with
  | Some (String a h) => [CasGetByHash (String a h)]
  | _ => []
  end.

(** The record [push] hands to the store. *)
Definition push_meta (f : t) (w : World) (h : string) (st : FileStats)
  : FileMeta :=
  {| fm_guid := match remote_of f w with
                | Some fi => fi_guid fi
                | None => List.hd EmptyString (uuids w)
                end;
     fm_name := name f;
     fm_synchash := h;
     fm_ctime := ctime st;
     fm_mtime := mtime st;
     fm_parent := None;
     fm_is_directory := false;
     fm_synctime := clock w |}.

(** The hash differs from the one the remote metadata records, or there
    is no remote metadata. *)
Definition differs_from_remote (f : t) (w : World) (h : string) : bool :=
  match remote_of f w with
  | Some fi => negb (String.eqb (fi_synchash fi) h)
  | None => true
  end.

(** The hash differs from [hashes[guid]]. *)
Definition differs_from_shared (f : t) (w : World) (h : string) : bool :=
  match hashes w !! guid f with
  | Some sh => negb (String.eqb sh h)
  | None => true
  end.

Section Steps.

Variable digest : list byte -> list byte.
Variable getPath : string -> string.
Variable refuses : list CasRecord -> FileMeta -> list byte -> bool.

(** The world once [push] is done with the store. *)
Definition after_write (f : t) (w : World) (content : list byte)
    (st : FileStats) : World :=
  let h := generateHash digest content in
  let p := getPath (path f) in
  let w1 :=
    log (remote_events f w ++ [VaultReadBinary p; VaultReadBinary p]) w in
  if differs_from_remote f w h then
    let m := push_meta f w h st in
    let w2 := match remote_of f w with
              | None => set_uuids (List.tl (uuids w)) w1
              | Some _ => w1
              end in
    let w3 := log [CasWriteFile m content] (tick w2) in
    if refuses (cas w) m content then w3
    else set_cas (cas w ++ [({| fi_id := fresh_id (cas w); fi_meta := m |},
                             content)]) w3
  else w1.

(** The state [push] leaves, for a local file of bytes [content] and
    stats [st]. *)
Definition pushed (f : t) (w : World) (content : list byte) (st : FileStats)
  : State :=
  let h := generateHash digest content in
  let wa := after_write f w content st in
  let f' := set_synctime (clock wa) (set_filehash (Some h) f) in
  let wb := tick wa in
  (f',
   if differs_from_shared f w h
   then set_maps (<[guid f := h]> (hashes w))
          (<[guid f := clock wa]> (synctimes w))
          (log [YTransact [SetHash (guid f) h;
                           SetSyncTime (guid f) (clock wa)]] wb)
   else wb).

End Steps.

(** What a getter reads in a state. *)
Definition reads (g : M State bool) (s : State) : bool :=
  match fst (g s) with
  | Returned b => b
  | Thrown _ => false
  end.

(** A computation that leaves the address of the file alone, however it
    ends. *)
Definition keeps_address {A} (c : M State A) : Prop :=
  forall s, s3rn (fst (snd (c s))) = s3rn (fst s).

(** The events a run added to the trace of [w]. *)
Definition events_since (w w' : World) : list Event :=
  List.skipn (List.length (trace w)) (trace w').

End SyncFileSteps.

(** ** A concrete setting

    A digest, a vault layout and a store policy to run the methods on. *)

Module Scenario.

Import SyncFile.

Local Open Scope string_scope.

(** Stands in for SHA-256 where a run needs a digest: never empty, and
    different for different non-empty contents. *)
Definition toy_digest (bs : list byte) : list byte :=
  match bs with [] => [x00] | _ => bs end.

Definition toy_getPath (p : string) : string := "vault/" +:+ p.

(** A store that refuses a second record of a hash it has. *)
Definition reject_duplicates (c : list CasRecord) (m : FileMeta)
    (b : list byte) : bool :=
  match lookup_hash c (fm_synchash m) with Some _ => true | None => false end.

Definition folder0 : SharedFolder :=
  {| sf_guid := "F"; sf_relayId := Some "R";
     sf_s3rn := S3RemoteFolder "R" "F";
     sf_shouldConnect := true; sf_connect := Returned true |}.

(** One local file, nothing shared yet. *)
Definition w0 : World :=
  {| vault := {[ "vault/notes/a.md" :=
                   VFile [x68; x69] {| ctime := 5; mtime := 7; size := 2 |} ]};
     cas := []; hashes := ∅; synctimes := ∅; folder := folder0;
     clock := 1000; ticks := [1; 2; 3]; uuids := ["u1"; "u2"]; trace := [] |}.

(** The file of [w0], as the constructor makes it. *)
Definition f0 : t := constructor toy_getPath "notes/a.md" GivenNothing "g1" w0.

(** A file nobody has materialized or hashed, in an empty vault. *)
Definition w_empty : World :=
  {| vault := ∅; cas := []; hashes := ∅; synctimes := ∅; folder := folder0;
     clock := 1000; ticks := []; uuids := []; trace := [] |}.

Definition f_fresh : t :=
  constructor toy_getPath "notes/b.md" GivenNothing "g2" w_empty.

(** [f0] in a world where the shared maps agree with its sync time and
    name no hash. *)
Definition w_even : World :=
  set_maps ∅ {[ "g1" := 7 ]} w0.

(** The shared map names the empty string as the hash of [g1]. *)
Definition w_blank : World :=
  set_maps {[ "g1" := EmptyString ]} ∅ w0.

(** The shared map names a hash the store has no record of. *)
Definition w_dangling : World :=
  set_maps {[ "g1" := "6162" ]} {[ "g1" := 2000 ]} w0.

(** The store has the bytes the shared map names, which are not the
    local ones. *)
Definition w_behind : World :=
  set_cas
    [({| fi_id := 4;
         fi_meta := {| fm_guid := "u0"; fm_name := "a.md";
                       fm_synchash := "6162"; fm_ctime := 1; fm_mtime := 2;
                       fm_parent := None; fm_is_directory := false;
                       fm_synctime := 2000 |} |}, [x61; x62])]
    w_dangling.

(** A file whose address is local, in a folder that has a relay. *)
Definition f_local : t := set_s3rn (S3File "F" "g1") f0.

(** A handle whose token never changes its url and whose transport
    always takes the connect. *)
Definition tok0 : HasProvider.ClientToken :=
  {| HasProvider.ct_url := "wss://relay.example/d/R-D";
     HasProvider.ct_token := "secret";
     HasProvider.expiryTime := 5000 |}.

Definition env0 : HasProvider.Env :=
  {| HasProvider.S3RN_encode := fun _ => "s3rn:relay:relay:R:folder:F:doc:D";
     HasProvider.provider_url := fun tok _ => HasProvider.ct_url tok;
     HasProvider.getToken := fun _ _ => Returned tok0;
     HasProvider.isIosApp := false;
     HasProvider.tokenTimesOut := false;
     HasProvider.transportOpens := fun _ => true |}.

Definition hp0 : HasProvider.t :=
  {| HasProvider._provider :=
       {| HasProvider.url := "wss://relay.example/d/R-D";
          HasProvider.shouldConnect := true;
          HasProvider.wsUnsuccessfulReconnects := 0;
          HasProvider.ws :=
            Some {| HasProvider.readyState := HasProvider.CONNECTING |};
          HasProvider.synced := false |};
     HasProvider._s3rn := S3RemoteDocument "R" "F" "D";
     HasProvider.path := Some "notes/a.md";
     HasProvider.clientToken := tok0;
     HasProvider.listeners := [1%nat];
     HasProvider.log := [] |}.

End Scenario.

(** ** The rest of [SyncFile] *)

Module SyncFileMore.

Import SyncFile.

(** The characters [toString(16)] writes. *)
Definition is_hex_char (c : ascii) : bool :=
  List.existsb (Ascii.eqb c) (list_ascii_of_string "0123456789abcdef").

(** A computation that leaves a part of the state alone, however it
    ends. *)
Definition keeps {X A} (part : State -> X) (c : M State A) : Prop :=
  forall s, part (snd (c s)) = part s.

(** The local byte store. *)
Definition local_bytes (s : State) : gmap string AbstractFile :=
  vault (snd s).

(** What all peers see: the store and the two shared maps. *)
Definition shared_side (s : State)
  : list CasRecord * gmap string string * gmap string Z :=
  (cas (snd s), hashes (snd s), synctimes (snd s)).

Section More.

Variable digest : list byte -> list byte.
Variable getPath : string -> string.
Variable refuses : list CasRecord -> FileMeta -> list byte -> bool.

(** [sharedFolder.getVirtualPath]: from a path in the vault to a path in
    the shared folder. *)
Variable getVirtualPath : string -> string.

(** [static fromTFile(relayManager, sharedFolder, tfile)]: the new file
    and the world, from which the guid was drawn. *)
Definition fromTFile (tf : TFile) (w : World) : t * World :=
  let p := getVirtualPath (tf_path tf) in
  let g := List.hd EmptyString (uuids w) in
  let w' := set_uuids (List.tl (uuids w)) w in
  (constructor getPath p (GivenFile tf) g w', w').

(** [get lastModified] *)
Definition lastModified : M State Z :=
  let* st := stat getPath in ret (mtime st).

(** The cached hash is the hash of the bytes the vault has at the path of
    the file. *)
Definition in_step (f : t) (w : World) : Prop :=
  exists content st,
    vault w !! getPath (path f) = Some (VFile content st) /\
    _filehash f = Some (generateHash digest content).

End More.

End SyncFileMore.

(** ** The rest of [HasProvider] *)

Module HasProviderMore.

Import HasProvider.

Local Open Scope string_scope.

(** [s3rnToYsweetDocId(entity)] *)
Definition s3rnToYsweetDocId (entity : S3RNType) : string :=
  match entity with
  | S3RemoteDocument relayId _ documentId => relayId +:+ "-" +:+ documentId
  | S3RemoteFolder relayId folderId => relayId +:+ "-" +:+ folderId
  | _ => "-"
  end.

(** [providerActive()], [now] being what [Date.now()] reads.  The token
    is an object, so the test [if (this.clientToken)] always passes. *)
Definition providerActive (now : Z) (hp : t) : bool :=
  let tokenIsSet := String.eqb (url (_provider hp)) (ct_url (clientToken hp)) in
  let expired := (now >? or_else (Some (expiryTime (clientToken hp))) 0)%Z in
  tokenIsSet && negb expired.

Definition is_notified (e : Event) : bool :=
  match e with Notified _ _ => true | _ => false end.


Section Handle.

Variable env : Env.

(** The two arguments [getProviderToken()] asks the token store with. *)
Definition token_key (hp : t) : string := S3RN_encode env (_s3rn hp).

Definition token_path (hp : t) : string := or_else (path hp) "unknown".

(** [withActiveProvider()]; the handle it resolves to is the state. *)
Definition withActiveProvider (now : Z) : M t unit :=
  let* hp := gets (fun hp => hp) in
  if providerActive now hp then ret tt
  else
    let* _ := getProviderToken env in
    ret tt.

(** What [_provider.disconnect()] followed by [_provider.destroy()] makes
    of the transport. *)
Variable teardown : Provider -> Provider.

(** [destroy()].  Taking the two listeners off the events of the
    transport has no counterpart here: the listeners are functions one
    calls, not registrations. *)
Definition destroy : M t unit :=
  do* update_provider teardown in
  modify (set_listeners []).

End Handle.

End HasProviderMore.

(** ** Tagged logging and toasts ([debug.ts]) *)

Module Debug.

Local Open Scope string_scope.

(** The module's [debugging] flag, and the notices shown so far. *)
Record St := { debugging : bool; notices : list string }.

Record JsError := { err_name : string; err_message : string }.

(** A function of any number of arguments that returns nothing. *)
Definition Fn : Type := list string -> M St unit.

Definition setDebugging (debug : bool) : M St unit :=
  modify (fun s => {| debugging := debug; notices := notices s |}).

(** [new Notice(text)] *)
Definition Notice (text : string) : M St unit :=
  modify (fun s => {| debugging := debugging s;
                      notices := notices s ++ [text] |}).

(** [curryLog(initialText, fn)]: the flag is read when the logger is
    made. *)
Definition curryLog (initialText : string) (fn : Fn) : M St Fn :=
  let* s := gets (fun s => s) in
  if debugging s
  then ret (fun args => fn (initialText :: ": " :: args))
  else ret (fun _ => ret tt).

Definition newline : string := String (ascii_of_nat 10) EmptyString.

Definition toastDebug (error : JsError) : M St JsError :=
  do* Notice (err_name error +:+ newline +:+ err_message error) in
  ret error.

Definition toastProd (error : JsError) : M St JsError :=
  do* Notice (err_name error +:+ ":" +:+ newline
              +:+ "An error has occurred, please reload Obsidian.") in
  ret error.

(** [toast], for a build of type [BUILD_TYPE]. *)
Definition toast (BUILD_TYPE : string) : JsError -> M St JsError :=
  if String.eqb BUILD_TYPE "debug" then toastDebug else toastProd.

End Debug.

(** ** More of the concrete setting *)

Module ScenarioMore.

Import SyncFile.

Local Open Scope string_scope.

Definition toy_getVirtualPath (p : string) : string :=
  String.substring 6 (String.length p - 6) p.

(** The handle of the file of [Scenario.w0]. *)
Definition tf0 : TFile :=
  {| tf_path := "vault/notes/a.md";
     tf_stat := {| ctime := 5; mtime := 7; size := 2 |} |}.

(** The folder's [connect()] resolves [false]. *)
Definition w_refused : World :=
  {| vault := vault Scenario.w0; cas := []; hashes := ∅; synctimes := ∅;
     folder := {| sf_guid := "F"; sf_relayId := Some "R";
                  sf_s3rn := S3RemoteFolder "R" "F";
                  sf_shouldConnect := true; sf_connect := Returned false |};
     clock := 1000; ticks := []; uuids := []; trace := [] |}.

(** A second consumer of what [Scenario.f0] pushed from [Scenario.w0]: the
    same store and shared maps, an empty vault of its own. *)
Definition w_peer : World :=
  set_vault ∅
    (snd (snd (push Scenario.toy_digest Scenario.toy_getPath
                 Scenario.reject_duplicates (Scenario.f0, Scenario.w0)))).

Definition f_peer : t :=
  constructor Scenario.toy_getPath "inbox/a.md" GivenNothing "g1" w_peer.

(** A token source that fails. *)
Definition env_down : HasProvider.Env :=
  {| HasProvider.S3RN_encode := fun _ => "s3rn:relay:relay:R:folder:F:doc:D";
     HasProvider.provider_url := fun tok _ => HasProvider.ct_url tok;
     HasProvider.getToken := fun _ _ => Thrown TokenAcquisitionFailure;
     HasProvider.isIosApp := false;
     HasProvider.tokenTimesOut := false;
     HasProvider.transportOpens := fun _ => true |}.


(** A handle without a socket, holding the empty token. *)
Definition hp_new : HasProvider.t :=
  {| HasProvider._provider :=
       {| HasProvider.url := EmptyString;
          HasProvider.shouldConnect := false;
          HasProvider.wsUnsuccessfulReconnects := 0;
          HasProvider.ws := None;
          HasProvider.synced := false |};
     HasProvider._s3rn := S3RemoteDocument "R" "F" "D";
     HasProvider.path := Some "notes/a.md";
     HasProvider.clientToken :=
       {| HasProvider.ct_url := EmptyString;
          HasProvider.ct_token := EmptyString;
          HasProvider.expiryTime := 0 |};
     HasProvider.listeners := [1%nat; 2%nat];
     HasProvider.log := [] |}.

End ScenarioMore.

(** ** Properties of the synchronization engine *)

Module SyncFileProps.

Import SyncFile SyncFileSteps.

Ltac run :=
  unfold bind, ret, throw, try_catch, unawaited, gets, modify, this, world,
    update_this, update_world, emit; simpl.

(** Two states are compared field by field: unfolding nested setters
    instead would copy the inner state once per field and level. *)
Lemma world_ext (w w' : World) :
  vault w = vault w' -> cas w = cas w' -> hashes w = hashes w' ->
  synctimes w = synctimes w' -> folder w = folder w' -> clock w = clock w' ->
  ticks w = ticks w' -> uuids w = uuids w' -> trace w = trace w' -> w = w'.
Proof. destruct w, w'; simpl; congruence. Qed.

Lemma file_ext (f f' : t) :
  s3rn f = s3rn f' -> _tfile f = _tfile f' -> _filehash f = _filehash f' ->
  name f = name f' -> extension f = extension f' ->
  synctime f = synctime f' -> basename f = basename f' ->
  connected f = connected f' -> path f = path f' -> guid f = guid f' ->
  f = f'.
Proof. destruct f, f'; simpl; congruence. Qed.

Lemma state_ext {A} (r : Outcome A) (f f' : t) (w w' : World) :
  f = f' -> w = w' -> (r, (f, w)) = (r, (f', w')).
Proof. now intros -> ->. Qed.

Ltac same_state :=
  apply state_ext; [apply file_ext | apply world_ext];
  simpl; rewrite <- ?app_assoc; reflexivity.

Ltac flatten_world :=
  first [ same_state | simpl; rewrite <- ?app_assoc; simpl ].

Lemma or_else_zero (o : option Z) : or_else o 0 = default 0 o.
Proof.
  destruct o as [z|]; simpl; [|reflexivity].
  unfold truthy, truthy_Z. destruct (Z.eqb_spec z 0); simpl; congruence.
Qed.

Lemma strict_neq_Some (a b : string) :
  strict_neq (Some a) (Some b) = negb (String.eqb a b).
Proof.
  unfold strict_neq. destruct (String.eqb_spec a b) as [->|Hne]; simpl.
  - now rewrite bool_decide_eq_true_2.
  - rewrite bool_decide_eq_false_2; [reflexivity | congruence].
Qed.

Lemma strict_neq_cases (a b : option string) :
  strict_neq a b =
  match a, b with
  | Some x, Some y => negb (String.eqb x y)
  | None, None => false
  | _, _ => true
  end.
Proof.
  destruct a as [x|], b as [y|]; try reflexivity. apply strict_neq_Some.
Qed.

Lemma lookup_hash_synchash (c : list CasRecord) (h : string) (fi : FileInfo) :
  lookup_hash c h = Some fi -> fi_synchash fi = h.
Proof.
  unfold lookup_hash. intros H.
  destruct (List.find (fun r => String.eqb (fi_synchash (fst r)) h) c)
    as [r|] eqn:Hf; [|discriminate].
  apply List.find_some in Hf as [_ Heq]. simpl in H.
  injection H as <-. now apply String.eqb_eq.
Qed.

Lemma lookup_hash_app (c : list CasRecord) (r : CasRecord) (h : string) :
  fi_synchash (fst r) = h ->
  exists fi, lookup_hash (c ++ [r]) h = Some fi.
Proof.
  intros Hr. unfold lookup_hash. induction c as [|x c IH]; simpl.
  - rewrite Hr, String.eqb_refl. simpl. eauto.
  - destruct (String.eqb (fi_synchash (fst x)) h); simpl; eauto.
Qed.

(** The hash of a non-empty digest, such as the 32 bytes of SHA-256, is a
    truthy string. *)
Lemma generateHash_truthy (digest : list byte -> list byte)
    (content : list byte) :
  digest content <> [] -> truthy (generateHash digest content) = true.
Proof.
  unfold generateHash, Hasher.generateHash.
  destruct (digest content) as [|b rest]; [congruence | reflexivity].
Qed.

Lemma events_since_log (w w' : World) (evs : list Event) :
  trace w' = trace w ++ evs -> events_since w w' = evs.
Proof.
  intros H. unfold events_since. rewrite H.
  now rewrite List.skipn_app, List.skipn_all, Nat.sub_diag.
Qed.

Lemma getRemote_eval (f : t) (w : World) :
  getRemote (f, w) = (Returned (remote_of f w), (f, log (remote_events f w) w)).
Proof.
  unfold getRemote, serverHash, cas_getByHash, remote_of, remote_events. run.
  destruct (hashes w !! guid f) as [[|a h]|]; simpl; try reflexivity;
    (apply state_ext; [reflexivity|]; apply world_ext; simpl;
     now rewrite ?app_nil_r).
Qed.

Section Engine.

Variable digest : list byte -> list byte.
Variable getPath : string -> string.
Variable refuses : list CasRecord -> FileMeta -> list byte -> bool.

Lemma pull_eval (f : t) (w : World) :
  pull digest getPath (f, w) =
  match hashes w !! guid f with
  | Some (String a h') =>
      let h := String a h' in
      match lookup_hash (cas w) h with
      | None =>
          (Thrown ServerContentMissing,
           (f, log [CasGetByHash h; CasGetByHash h] w))
      | Some fi =>
          match lookup_id (cas w) (fi_id fi) with
          | None =>
              (Thrown CasBlobMissing,
               (f, log [CasGetByHash h; CasGetByHash h;
                        CasReadFile (fi_id fi)] w))
          | Some content =>
              let p := getPath (path f) in
              let w' := log [CasGetByHash h; CasGetByHash h;
                             CasReadFile (fi_id fi);
                             VaultWriteBinary p content] w in
              match vault w !! p with
              | Some VFolder => (Thrown ByteStoreFailure, (f, w'))
              | old =>
                  let st := written_stat old (clock w) content in
                  (Returned tt,
                   (set_tfile (Some {| tf_path := p; tf_stat := st |})
                      (set_filehash (Some (generateHash digest content)) f),
                    set_vault (<[p := VFile content st]> (vault w)) w'))
              end
          end
      end
  | _ => (Thrown ServerHashMissing, (f, w))
  end.
Proof.
  unfold pull, serverHash. run.
  destruct (hashes w !! guid f) as [[|a h']|] eqn:Hh; try reflexivity.
  simpl. rewrite getRemote_eval. unfold remote_of, remote_events.
  simpl. rewrite Hh. simpl.
  destruct (lookup_hash (cas w) (String a h')) as [fi|]; simpl.
  2:{ now flatten_world. }
  unfold cas_readFile. run.
  destruct (lookup_id (cas w) (fi_id fi)) as [content|]; simpl.
  2:{ now flatten_world. }
  unfold adapter_writeBinary, vault_getAbstractFileByPath. run.
  destruct (vault w !! getPath (path f)) as [[c st|]|] eqn:Hv; simpl;
    rewrite ?lookup_insert_eq; simpl; now flatten_world.
Qed.

Lemma updateStats_eval (f : t) (w : World) :
  updateStats digest getPath (f, w) =
  match vault w !! getPath (path f) with
  | Some (VFile content _) =>
      (Returned tt,
       (set_filehash (Some (generateHash digest content)) f,
        log [VaultReadBinary (getPath (path f))] w))
  | _ => (Thrown LocalMaterializationMissing, (f, w))
  end.
Proof.
  unfold updateStats, tfile, vault_getAbstractFileByPath, vault_readBinary.
  run.
  destruct (vault w !! getPath (path f)) as [[c st|]|] eqn:Hv; simpl;
    rewrite ?Hv; reflexivity.
Qed.

Lemma differs_from_remote_eq (f : t) (w : World) (h : string) :
  differs_from_remote f w h =
  strict_neq (fi_synchash <$> remote_of f w) (Some h).
Proof.
  unfold differs_from_remote. rewrite strict_neq_cases.
  now destruct (remote_of f w).
Qed.

Lemma differs_from_shared_eq (f : t) (w : World) (h : string) :
  differs_from_shared f w h = strict_neq (hashes w !! guid f) (Some h).
Proof.
  unfold differs_from_shared. rewrite strict_neq_cases.
  now destruct (hashes w !! guid f).
Qed.

Lemma push_eval (f : t) (w : World) (content : list byte) (st : FileStats) :
  vault w !! getPath (path f) = Some (VFile content st) ->
  push digest getPath refuses (f, w) =
  (Returned (generateHash digest content),
   pushed digest getPath refuses f w content st).
Proof.
  intros Hv. unfold push. unfold bind at 1. rewrite getRemote_eval.
  unfold updateStats, tfile, stat, tfile, vault_getAbstractFileByPath,
    vault_readBinary, cas_writeFile, uuidv4, Date_now, ydoc_transact.
  run. unfold generateHash. repeat (rewrite Hv; simpl).
  unfold pushed, after_write.
  rewrite differs_from_remote_eq, differs_from_shared_eq.
  unfold push_meta, generateHash.
  set (h := Hasher.generateHash digest content).
  destruct (strict_neq (fi_synchash <$> remote_of f w) (Some h)); simpl;
    [destruct (remote_of f w) as [fi|] eqn:Hr; simpl;
     repeat (rewrite Hv; simpl);
     destruct (refuses (cas w) _ content); simpl|];
    destruct (strict_neq (hashes w !! guid f) (Some h)); simpl;
    same_state.
Qed.

(** C3.  [sync()] does nothing at all on a disconnected file; on a
    connected file with no local materialization it is [pull()]; otherwise
    it re-reads and re-hashes the local bytes and then runs [pull()] if
    [isStale && shouldPull] and [push()] if not.  The recomputation fails
    with [LocalMaterializationMissing] when the vault has no file at the
    path. *)
Theorem sync_decision (f : t) (w : World) :
  sync digest getPath refuses (f, w) =
  if negb (connected f) then (Returned tt, (f, w))
  else
    match _tfile f with
    | None => pull digest getPath (f, w)
    | Some _ =>
        match vault w !! getPath (path f) with
        | Some (VFile content _) =>
            let recomputed :=
              (set_filehash (Some (generateHash digest content)) f,
               log [VaultReadBinary (getPath (path f))] w) in
            if reads isStale recomputed && reads shouldPull recomputed
            then pull digest getPath recomputed
            else (do* push digest getPath refuses in ret tt) recomputed
        | _ => (Thrown LocalMaterializationMissing, (f, w))
        end
    end.
Proof.
  unfold sync. run. destruct (connected f); simpl; [|reflexivity].
  destruct (_tfile f) as [tf|]; simpl; [|reflexivity].
  unfold getHash. run. rewrite orb_true_r. rewrite updateStats_eval.
  destruct (vault w !! getPath (path f)) as [[content st|]|]; simpl;
    try reflexivity.
  unfold reads, isStale, shouldPull. run.
  destruct (strict_neq _ _ && _); reflexivity.
Qed.

(** C5, as the code has it.  [pull()] fails with [ServerHashMissing] when
    [serverHash] is [undefined] or the empty string, and with
    [ServerContentMissing] when it is a non-empty string the store has no
    metadata record for; in each of these cases the vault is what it was
    and no write to it was attempted. *)
Theorem pull_failures (f : t) (w : World) :
  let r := pull digest getPath (f, w) in
  let unwritten :=
    vault (snd (snd r)) = vault w /\
    List.filter is_vault_write (events_since w (snd (snd r))) = [] in
  match hashes w !! guid f with
  | None => fst r = Thrown ServerHashMissing /\ unwritten
  | Some EmptyString => fst r = Thrown ServerHashMissing /\ unwritten
  | Some (String a h) =>
      match lookup_hash (cas w) (String a h) with
      | None => fst r = Thrown ServerContentMissing /\ unwritten
      | Some _ => True
      end
  end.
Proof.
  cbv zeta. rewrite pull_eval.
  destruct (hashes w !! guid f) as [[|a h]|]; simpl.
  - unfold events_since. now rewrite List.skipn_all.
  - destruct (lookup_hash (cas w) (String a h)); [exact I|]. simpl.
    split; [reflexivity|]. split; [reflexivity|].
    now rewrite (events_since_log w _ [CasGetByHash (String a h);
                                       CasGetByHash (String a h)]).
  - unfold events_since. now rewrite List.skipn_all.
Qed.

(** C10.  A [pull()] that succeeds leaves every field of the file but the
    cached hash and the cached handle as it was, and everything in the
    world but the bytes at the file's own path and the trace; so
    [shouldPull] reads the same before and after. *)
Theorem pull_frame (f f' : t) (w w' : World) :
  pull digest getPath (f, w) = (Returned tt, (f', w')) ->
  (guid f' = guid f /\ path f' = path f /\ connected f' = connected f /\
   synctime f' = synctime f /\ s3rn f' = s3rn f /\ name f' = name f /\
   extension f' = extension f /\ basename f' = basename f) /\
  (hashes w' = hashes w /\ synctimes w' = synctimes w /\ cas w' = cas w /\
   folder w' = folder w /\ clock w' = clock w) /\
  (forall p, p <> getPath (path f) -> vault w' !! p = vault w !! p) /\
  shouldPull (f', w') = (fst (shouldPull (f, w)), (f', w')).
Proof.
  rewrite pull_eval. intros H.
  destruct (hashes w !! guid f) as [[|a h]|]; try discriminate.
  simpl in H.
  destruct (lookup_hash (cas w) (String a h)) as [fi|]; try discriminate.
  destruct (lookup_id (cas w) (fi_id fi)) as [content|]; try discriminate.
  destruct (vault w !! getPath (path f)) as [[c st|]|];
    try discriminate; injection H as <- <-; simpl;
    (repeat split; try reflexivity;
     intros p Hp; now rewrite lookup_insert_ne).
Qed.

(** *** What [push] leaves behind *)

Lemma pushed_file (f : t) (w : World) (content : list byte) (st : FileStats) :
  let f1 := fst (pushed digest getPath refuses f w content st) in
  path f1 = path f /\ guid f1 = guid f /\
  _filehash f1 = Some (generateHash digest content) /\
  synctime f1 = clock (after_write digest getPath refuses f w content st).
Proof. now unfold pushed. Qed.

Lemma after_write_frame (f : t) (w : World) (content : list byte)
    (st : FileStats) :
  let wa := after_write digest getPath refuses f w content st in
  vault wa = vault w /\ hashes wa = hashes w /\ synctimes wa = synctimes w.
Proof.
  unfold after_write.
  destruct (differs_from_remote f w _); [|now flatten_world].
  destruct (remote_of f w), (refuses (cas w) _ content); now flatten_world.
Qed.

Lemma after_write_cas (f : t) (w : World) (content : list byte)
    (st : FileStats) :
  let h := generateHash digest content in
  let m := push_meta f w h st in
  cas (after_write digest getPath refuses f w content st) =
  if differs_from_remote f w h && negb (refuses (cas w) m content)
  then cas w ++ [({| fi_id := fresh_id (cas w); fi_meta := m |}, content)]
  else cas w.
Proof.
  unfold after_write.
  destruct (differs_from_remote f w _); [|now flatten_world].
  destruct (remote_of f w), (refuses (cas w) _ content); now flatten_world.
Qed.

Lemma after_write_clock (f : t) (w : World) (content : list byte)
    (st : FileStats) :
  clock (after_write digest getPath refuses f w content st) =
  if differs_from_remote f w (generateHash digest content)
  then clock w + List.hd 0 (ticks w) else clock w.
Proof.
  unfold after_write.
  destruct (differs_from_remote f w _); [|now flatten_world].
  destruct (remote_of f w), (refuses (cas w) _ content); now flatten_world.
Qed.

Lemma after_write_trace (f : t) (w : World) (content : list byte)
    (st : FileStats) :
  let h := generateHash digest content in
  let p := getPath (path f) in
  trace (after_write digest getPath refuses f w content st) =
  trace w ++
  (remote_events f w ++ [VaultReadBinary p; VaultReadBinary p]) ++
  (if differs_from_remote f w h
   then [CasWriteFile (push_meta f w h st) content] else []).
Proof.
  unfold after_write.
  destruct (differs_from_remote f w _);
    [|simpl; now rewrite app_nil_r].
  destruct (remote_of f w), (refuses (cas w) _ content); simpl;
    now rewrite <- !app_assoc.
Qed.

Lemma pushed_world (f : t) (w : World) (content : list byte)
    (st : FileStats) :
  let h := generateHash digest content in
  let wa := after_write digest getPath refuses f w content st in
  let w1 := snd (pushed digest getPath refuses f w content st) in
  vault w1 = vault w /\ cas w1 = cas wa /\
  hashes w1 = (if differs_from_shared f w h
               then <[guid f := h]> (hashes w) else hashes w) /\
  synctimes w1 = (if differs_from_shared f w h
                  then <[guid f := clock wa]> (synctimes w)
                  else synctimes w) /\
  trace w1 = trace wa ++
             (if differs_from_shared f w h
              then [YTransact [SetHash (guid f) h;
                               SetSyncTime (guid f) (clock wa)]]
              else []).
Proof.
  cbv zeta. unfold pushed.
  destruct (after_write_frame f w content st) as (Hv & Hh & Hs).
  destruct (differs_from_shared f w _); flatten_world;
    rewrite ?app_nil_r; auto.
Qed.

Lemma remote_events_quiet (f : t) (w : World) :
  List.filter is_cas_write (remote_events f w) = [] /\
  List.filter is_transact (remote_events f w) = [].
Proof.
  unfold remote_events. now destruct (hashes w !! guid f) as [[|a h]|].
Qed.

Lemma pushed_shared_hash (f : t) (w : World) (content : list byte)
    (st : FileStats) :
  hashes (snd (pushed digest getPath refuses f w content st)) !! guid f =
  Some (generateHash digest content).
Proof.
  destruct (pushed_world f w content st) as (_ & _ & -> & _).
  unfold differs_from_shared.
  destruct (hashes w !! guid f) as [sh|] eqn:Hsh.
  - destruct (String.eqb_spec sh (generateHash digest content)) as [<-|Hne];
      simpl; [assumption | apply lookup_insert_eq].
  - apply lookup_insert_eq.
Qed.

(** C4.  For a local file of bytes [content]: [push()] returns the hash
    of those bytes and caches it; it hands the store one record with the
    bytes exactly when the hash differs from the one the remote metadata
    records or there is no remote metadata, and goes on whether the store
    takes the record or refuses it; the local sync time becomes the clock
    reading taken after that; the two shared maps are set together, in one
    transaction, exactly when the hash differs from the shared one.
    Pushing again without a change returns the same hash, leaves the
    shared maps alone, writes nothing once the store has a record of the
    hash, and over both pushes the store gains at most one record. *)
Theorem push_spec (f : t) (w : World) (content : list byte) (st : FileStats) :
  vault w !! getPath (path f) = Some (VFile content st) ->
  truthy (generateHash digest content) = true ->
  let h := generateHash digest content in
  let m := push_meta f w h st in
  let once := push digest getPath refuses (f, w) in
  let twice := push digest getPath refuses (snd once) in
  let f1 := fst (snd once) in
  let w1 := snd (snd once) in
  let w2 := snd (snd twice) in
  (fst once = Returned h /\ _filehash f1 = Some h) /\
  (List.filter is_cas_write (events_since w w1) =
     if differs_from_remote f w h then [CasWriteFile m content] else []) /\
  (cas w1 =
     if differs_from_remote f w h && negb (refuses (cas w) m content)
     then cas w ++ [({| fi_id := fresh_id (cas w); fi_meta := m |}, content)]
     else cas w) /\
  (synctime f1 =
     if differs_from_remote f w h
     then clock w + List.hd 0 (ticks w) else clock w) /\
  (if differs_from_shared f w h
   then hashes w1 = <[guid f := h]> (hashes w) /\
        synctimes w1 = <[guid f := synctime f1]> (synctimes w) /\
        List.filter is_transact (events_since w w1) =
          [YTransact [SetHash (guid f) h; SetSyncTime (guid f) (synctime f1)]]
   else hashes w1 = hashes w /\ synctimes w1 = synctimes w /\
        List.filter is_transact (events_since w w1) = []) /\
  (fst twice = Returned h /\
   hashes w2 = hashes w1 /\ synctimes w2 = synctimes w1 /\
   (List.length (cas w2) <= S (List.length (cas w)))%nat /\
   match lookup_hash (cas w1) h with
   | Some _ =>
       cas w2 = cas w1 /\
       List.filter is_cas_write (events_since w1 w2) = []
   | None => cas w1 = cas w
   end).
Proof.
  intros Hv Hh h m once twice f1 w1 w2.
  assert (Honce : once = (Returned h, pushed digest getPath refuses f w content st))
    by (apply push_eval; exact Hv).
  destruct (pushed_file f w content st) as (Hpath & Hguid & Hfh & Hst).
  destruct (pushed_world f w content st) as (Hvault & Hcas & Hhs & Hss & Htr).
  pose proof (pushed_shared_hash f w content st) as Hshared.
  assert (Hv1 : vault w1 !! getPath (path f1) = Some (VFile content st)).
  { subst f1 w1. rewrite Honce. cbn [fst snd]. now rewrite Hvault, Hpath. }
  assert (Htwice : twice =
            (Returned h, pushed digest getPath refuses f1 w1 content st)).
  { subst twice.
    replace (snd once) with (f1, w1)
      by (subst f1 w1; now destruct (snd once)).
    apply push_eval; exact Hv1. }
  assert (Hf1 : f1 = fst (pushed digest getPath refuses f w content st))
    by (subst f1; now rewrite Honce).
  assert (Hw1 : w1 = snd (pushed digest getPath refuses f w content st))
    by (subst w1; now rewrite Honce).
  rewrite <- Hf1 in Hpath, Hguid, Hfh, Hst.
  rewrite <- Hw1 in Hvault, Hcas, Hhs, Hss, Htr, Hshared.
  rewrite after_write_cas in Hcas. fold h m in Hcas.
  rewrite after_write_clock in Hst, Hss, Htr. fold h in Hst, Hss, Htr.
  rewrite after_write_trace in Htr. fold h m in Htr.
  rewrite <- app_assoc in Htr.
  fold h in Hhs, Hss, Htr, Hshared, Hfh.
  destruct (remote_events_quiet f w) as (Hq1 & Hq2).
  (* the second push *)
  assert (Hsame : differs_from_shared f1 w1 h = false).
  { unfold differs_from_shared. rewrite Hguid, Hshared.
    now rewrite String.eqb_refl. }
  assert (Hrem : remote_of f1 w1 = lookup_hash (cas w1) h).
  { unfold remote_of. rewrite Hguid, Hshared.
    assert (Hne : exists a r, h = String a r).
    { subst h. destruct (generateHash digest content) as [|a r];
        [discriminate Hh | eauto]. }
    destruct Hne as (a & r & ->). reflexivity. }
  assert (Hdiff : differs_from_remote f1 w1 h =
                  match lookup_hash (cas w1) h with
                  | Some _ => false | None => true end).
  { unfold differs_from_remote. rewrite Hrem.
    destruct (lookup_hash (cas w1) h) as [fi|] eqn:Hl; [|reflexivity].
    apply lookup_hash_synchash in Hl. now rewrite Hl, String.eqb_refl. }
  destruct (pushed_world f1 w1 content st) as (_ & Hcas2 & Hhs2 & Hss2 & Htr2).
  assert (Hw2 : w2 = snd (pushed digest getPath refuses f1 w1 content st))
    by (subst w2; now rewrite Htwice).
  rewrite <- Hw2 in Hcas2, Hhs2, Hss2, Htr2. fold h in Hhs2, Hss2, Htr2.
  rewrite Hsame in Hhs2, Hss2, Htr2.
  rewrite after_write_cas in Hcas2. fold h in Hcas2.
  rewrite after_write_trace in Htr2. fold h in Htr2.
  rewrite Hdiff in Hcas2, Htr2. rewrite <- app_assoc in Htr2.
  destruct (remote_events_quiet f1 w1) as (Hq3 & _).
  repeat split.
  - now rewrite Honce.
  - exact Hfh.
  - rewrite (events_since_log w w1 _ Htr).
    rewrite !List.filter_app, Hq1. simpl.
    destruct (differs_from_remote f w h), (differs_from_shared f w h);
      reflexivity.
  - exact Hcas.
  - exact Hst.
  - rewrite (events_since_log w w1 _ Htr), Hhs, Hss, Hst.
    rewrite !List.filter_app, Hq2.
    destruct (differs_from_shared f w h), (differs_from_remote f w h);
      simpl; auto.
  - now rewrite Htwice.
  - exact Hhs2.
  - exact Hss2.
  - rewrite Hcas2.
    destruct (lookup_hash (cas w1) h) as [fi|] eqn:Hl; simpl.
    + rewrite Hcas.
      destruct (differs_from_remote f w h && negb (refuses (cas w) m content));
        rewrite ?List.length_app; simpl; lia.
    + assert (Hc : cas w1 = cas w).
      { rewrite Hcas.
        destruct (differs_from_remote f w h && negb (refuses (cas w) m content))
          eqn:Hb; [|reflexivity].
        rewrite Hcas in Hl; rewrite ?Hb in Hl.
        destruct (lookup_hash_app (cas w)
                    ({| fi_id := fresh_id (cas w); fi_meta := m |}, content)
                    h eq_refl) as [fi Hfi].
        exfalso. pose proof (eq_trans (eq_sym Hfi) Hl) as X.
        discriminate X. }
      destruct (negb (refuses (cas w1) _ content));
        rewrite ?List.length_app, Hc; simpl; lia.
  - destruct (lookup_hash (cas w1) h) as [fi|] eqn:Hl.
    + split; [exact Hcas2|].
      rewrite (events_since_log w1 w2 _ Htr2).
      rewrite !List.filter_app, Hq3. reflexivity.
    + rewrite Hcas.
      destruct (differs_from_remote f w h && negb (refuses (cas w) m content))
        eqn:Hb; [|reflexivity].
      rewrite Hcas in Hl; rewrite ?Hb in Hl.
      destruct (lookup_hash_app (cas w)
                  ({| fi_id := fresh_id (cas w); fi_meta := m |}, content)
                  h eq_refl) as [fi Hfi].
      exfalso. pose proof (eq_trans (eq_sym Hfi) Hl) as X.
      discriminate X.
Qed.

End Engine.

(** C1.  [shouldPull] is the comparison of the shared sync time (0 when
    the map has none) with the local one.  [shouldPush] is the opposite
    comparison and nothing else: the promise [getRemote()] returns is
    never awaited, [!!promise] is [true], and so whether the store has the
    remote metadata has no part in the result. *)
Theorem shouldPull_shouldPush_eval (f : t) (w : World) :
  let T_r := default 0 (synctimes w !! guid f) in
  let T_l := synctime f in
  fst (shouldPull (f, w)) = Returned (T_r >? T_l) /\
  fst (shouldPush (f, w)) = Returned (T_r <? T_l).
Proof.
  intros T_r T_l. split.
  - unfold shouldPull. run. rewrite or_else_zero. fold T_r T_l.
    now rewrite Z.gtb_ltb.
  - unfold shouldPush. run. rewrite or_else_zero. fold T_r T_l.
    destruct (getRemote (f, w)) as [o s]. simpl.
    now rewrite orb_false_r.
Qed.

(** With equal sync times and no remote metadata at all, [shouldPush] is
    [false]. *)
Example shouldPush_without_remote :
  fst (getRemote (Scenario.f0, Scenario.w_even)) = Returned None /\
  fst (shouldPush (Scenario.f0, Scenario.w_even)) = Returned false.
Proof. split; reflexivity. Qed.

(** C2, as the code has it.  [isStale] is [localHash !== serverHash]:
    [undefined] differs from every hash and is equal to itself. *)
Theorem isStale_cases (f : t) (w : World) :
  fst (isStale (f, w)) =
  Returned match _filehash f, hashes w !! guid f with
           | Some a, Some b => negb (String.eqb a b)
           | None, None => false
           | _, _ => true
           end.
Proof. unfold isStale. run. now rewrite strict_neq_cases. Qed.

(** C2 as stated fails: a file fresh from the constructor, with no cached
    hash and no server hash, is not stale. *)
Lemma fresh_file_is_not_stale :
  _filehash Scenario.f_fresh = None /\
  hashes Scenario.w_empty !! guid Scenario.f_fresh = None /\
  fst (isStale (Scenario.f_fresh, Scenario.w_empty)) = Returned false /\
  fst (isStale (Scenario.f_fresh, Scenario.w_empty)) <> Returned true.
Proof. repeat split; try reflexivity. discriminate. Qed.

(** C5 as stated fails: with the empty string as server hash, which is
    set and which the store has no record for, [pull()] fails with
    [ServerHashMissing], not with [ServerContentMissing]. *)
Lemma pull_blank_server_hash :
  hashes Scenario.w_blank !! guid Scenario.f0 = Some EmptyString /\
  lookup_hash (cas Scenario.w_blank) EmptyString = None /\
  fst (pull Scenario.toy_digest Scenario.toy_getPath
         (Scenario.f0, Scenario.w_blank)) = Thrown ServerHashMissing /\
  fst (pull Scenario.toy_digest Scenario.toy_getPath
         (Scenario.f0, Scenario.w_blank)) <> Thrown ServerContentMissing.
Proof. repeat split; try reflexivity. discriminate. Qed.

(** *** The address under the other methods

    Only [connect()] assigns [s3rn]; every other method keeps it, on
    every path, the failing ones included.  The combinators of the monad
    keep it when their parts do. *)

Lemma keeps_ret {A} (a : A) : keeps_address (ret a).
Proof. now intros s. Qed.

Lemma keeps_throw {A} (e : Error) : keeps_address (@throw State A e).
Proof. now intros s. Qed.

Lemma keeps_gets {A} (g : State -> A) : keeps_address (gets g).
Proof. now intros s. Qed.

Lemma keeps_bind {A B} (c : M State A) (k : A -> M State B) :
  keeps_address c -> (forall a, keeps_address (k a)) ->
  keeps_address (bind c k).
Proof.
  intros Hc Hk s. unfold bind. specialize (Hc s).
  destruct (c s) as [[a|e] s1]; simpl in *; [|exact Hc].
  now rewrite Hk.
Qed.

Lemma keeps_try_catch {A} (c : M State A) (h : Error -> M State A) :
  keeps_address c -> (forall e, keeps_address (h e)) ->
  keeps_address (try_catch c h).
Proof.
  intros Hc Hh s. unfold try_catch. specialize (Hc s).
  destruct (c s) as [[a|e] s1]; simpl in *; [exact Hc|].
  now rewrite Hh.
Qed.

Lemma keeps_unawaited {A} (c : M State A) :
  keeps_address c -> keeps_address (unawaited c).
Proof.
  intros Hc s. unfold unawaited. specialize (Hc s).
  now destruct (c s) as [o s1].
Qed.

Lemma keeps_update_world (g : World -> World) :
  keeps_address (update_world g).
Proof. now intros s. Qed.

Lemma keeps_update_this (g : t -> t) :
  (forall f, s3rn (g f) = s3rn f) -> keeps_address (update_this g).
Proof. intros Hg s. apply Hg. Qed.

Create HintDb keeps.

#[local] Hint Resolve keeps_ret keeps_throw keeps_gets keeps_update_world
  : keeps.

Ltac keeps :=
  repeat first
    [ progress intros
    | solve [auto with keeps]
    | apply keeps_bind
    | apply keeps_try_catch
    | apply keeps_unawaited
    | apply keeps_update_this; intros; reflexivity
    | match goal with
      | |- keeps_address (if ?b then _ else _) => destruct b
      | |- keeps_address (match ?x with _ => _ end) => destruct x
      end ].

Lemma keeps_getRemote : keeps_address getRemote.
Proof. unfold getRemote, serverHash, cas_getByHash, emit, world. keeps. Qed.

#[local] Hint Resolve keeps_getRemote : keeps.

Section Address.

Variable digest : list byte -> list byte.
Variable getPath : string -> string.
Variable refuses : list CasRecord -> FileMeta -> list byte -> bool.

Lemma keeps_updateStats : keeps_address (updateStats digest getPath).
Proof.
  unfold updateStats, tfile, vault_getAbstractFileByPath, vault_readBinary,
    emit, this, world.
  keeps.
Qed.

Lemma keeps_push : keeps_address (push digest getPath refuses).
Proof.
  pose proof keeps_updateStats.
  unfold push, stat, tfile, vault_getAbstractFileByPath, vault_readBinary,
    cas_writeFile, uuidv4, Date_now, ydoc_transact, emit, this, world.
  keeps.
Qed.

Lemma keeps_pull : keeps_address (pull digest getPath).
Proof.
  unfold pull, serverHash, cas_getByHash, cas_readFile, adapter_writeBinary,
    vault_getAbstractFileByPath, emit, this, world.
  keeps.
Qed.

Lemma keeps_sync : keeps_address (sync digest getPath refuses).
Proof.
  pose proof keeps_updateStats. pose proof keeps_push. pose proof keeps_pull.
  unfold sync, getHash, isStale, shouldPull, this.
  keeps.
Qed.

Lemma keeps_move (newPath : string) :
  keeps_address (move digest getPath newPath).
Proof. pose proof keeps_updateStats. unfold move, this. keeps. Qed.

End Address.

Lemma keeps_disconnect : keeps_address disconnect.
Proof. unfold disconnect. keeps. Qed.

(** C9.  [connect()] rewrites the address on its [S3Document] branch only:
    a file whose address is the local [S3File] keeps it, relay or no
    relay. *)
Theorem connect_keeps_S3File (f : t) (w : World) (a b : string) :
  s3rn (fst (snd (connect (set_s3rn (S3File a b) f, w)))) = S3File a b.
Proof.
  unfold connect. run.
  destruct (sf_s3rn (folder w)); simpl; try reflexivity;
    destruct (sf_shouldConnect (folder w)); simpl; try reflexivity;
    destruct (sf_connect (folder w)); reflexivity.
Qed.

(** A local file in a folder with a relay: [connect()] resolves [true] and
    the address is still local. *)
Example connect_local_file_with_relay :
  sf_relayId (folder Scenario.w0) = Some "R"%string /\
  connect (Scenario.f_local, Scenario.w0) =
  (Returned true, (Scenario.f_local, Scenario.w0)).
Proof. split; reflexivity. Qed.

(** [connect()] never turns an address that names a relay into one that
    does not. *)
Lemma connect_keeps_remote (f : t) (w : World) :
  is_remote (s3rn f) = true ->
  s3rn (fst (snd (connect (f, w)))) = s3rn f.
Proof.
  unfold connect. run.
  destruct (sf_s3rn (folder w)); simpl; try reflexivity;
    destruct (s3rn f) eqn:Ha; simpl; intros Hr; try discriminate;
    destruct (sf_shouldConnect (folder w)); simpl; try (now rewrite Ha);
    destruct (sf_connect (folder w)); simpl; now rewrite Ha.
Qed.

(** [push_spec] at the file of [Scenario.w0]. *)
Lemma push_spec_witness :
  vault Scenario.w0 !! Scenario.toy_getPath (path Scenario.f0) =
    Some (VFile [x68; x69] {| ctime := 5; mtime := 7; size := 2 |}) /\
  truthy (generateHash Scenario.toy_digest [x68; x69]) = true /\
  fst (push Scenario.toy_digest Scenario.toy_getPath
         Scenario.reject_duplicates (Scenario.f0, Scenario.w0)) =
    Returned "6869"%string /\
  fst (push Scenario.toy_digest Scenario.toy_getPath
         Scenario.reject_duplicates
         (snd (push Scenario.toy_digest Scenario.toy_getPath
                 Scenario.reject_duplicates (Scenario.f0, Scenario.w0)))) =
    Returned "6869"%string.
Proof.
  split; [reflexivity|]. split; [reflexivity|].
  pose proof (push_spec Scenario.toy_digest Scenario.toy_getPath
                Scenario.reject_duplicates Scenario.f0 Scenario.w0
                [x68; x69] {| ctime := 5; mtime := 7; size := 2 |}
                eq_refl eq_refl) as H.
  cbv zeta in H.
  destruct H as ((H1 & _) & _ & _ & _ & _ & (H2 & _)).
  split; [exact H1 | exact H2].
Defined.

(** [pull_frame] at a pull that succeeds: the store has the bytes the
    shared map names. *)
Lemma pull_frame_witness :
  let r := pull Scenario.toy_digest Scenario.toy_getPath
             (Scenario.f0, Scenario.w_behind) in
  r = (Returned tt, (fst (snd r), snd (snd r))) /\
  synctime (fst (snd r)) = synctime Scenario.f0 /\
  hashes (snd (snd r)) = hashes Scenario.w_behind /\
  synctimes (snd (snd r)) = synctimes Scenario.w_behind /\
  shouldPull (fst (snd r), snd (snd r)) =
    (fst (shouldPull (Scenario.f0, Scenario.w_behind)),
     (fst (snd r), snd (snd r))).
Proof.
  intros r.
  assert (Hr : r = (Returned tt, (fst (snd r), snd (snd r))))
    by (vm_compute; reflexivity).
  split; [exact Hr|].
  destruct (pull_frame Scenario.toy_digest Scenario.toy_getPath
              Scenario.f0 (fst (snd r)) Scenario.w_behind (snd (snd r)) Hr)
    as ((_ & _ & _ & Hs & _) & (Hh & Hss & _) & _ & Hp).
  split; [exact Hs|]. split; [exact Hh|]. split; [exact Hss|].
  exact Hp.
Defined.

End SyncFileProps.

(** ** Properties of the connection state machine *)

Module HasProviderProps.

Import HasProvider.

Ltac run :=
  unfold bind, ret, throw, try_catch, unawaited, gets, modify, emit,
    update_provider; simpl.

Lemma state_status_eval (hp : t) :
  status (state hp) =
  match ws (_provider hp) with
  | None => Some StatusDisconnected
  | Some s =>
      match readyState s with
      | 0 => Some StatusDisconnected
      | 1 => Some StatusConnected
      | 2 | 3 => Some StatusDisconnected
      | _ => None
      end
  end.
Proof.
  unfold state. simpl.
  destruct (ws (_provider hp)) as [[r]|]; simpl; [|reflexivity].
  unfold truthy, truthy_Z. destruct r as [|p|p]; simpl; try reflexivity.
Qed.

(** C8.  The status comes from the readiness of the socket alone, but not
    as [readyStateMap] reads: [OPEN] gives connected, [CLOSING] and
    [CLOSED] give disconnected, and so does [CONNECTING], whose value 0 is
    falsy and makes the getter fall back to [CLOSED]; without a socket the
    status is disconnected; any other readiness gives [undefined]. *)
Theorem status_of_readiness (hp : t) :
  status (state hp) =
  match ws (_provider hp) with
  | None => Some StatusDisconnected
  | Some s =>
      if readyState s =? OPEN then Some StatusConnected
      else if (readyState s =? CONNECTING) || (readyState s =? CLOSING)
              || (readyState s =? CLOSED)
           then Some StatusDisconnected
           else None
  end.
Proof.
  rewrite state_status_eval.
  destruct (ws (_provider hp)) as [[r]|]; [|reflexivity].
  unfold OPEN, CONNECTING, CLOSING, CLOSED. cbn [readyState].
  destruct r as [|p|p]; try reflexivity.
  destruct p as [[|[]|]|[|[]|]|]; reflexivity.
Qed.

(** A socket that is still connecting reads as disconnected. *)
Example state_of_connecting_socket :
  status
    (state
       (set_provider
          (set_ws (Some {| readyState := CONNECTING |})
             (_provider Scenario.hp0))
          Scenario.hp0)) =
  Some StatusDisconnected.
Proof. reflexivity. Qed.

(** No socket state reads as connecting or as unknown. *)
Lemma status_never_connecting_or_unknown (hp : t) :
  status (state hp) <> Some StatusConnecting /\
  status (state hp) <> Some StatusUnknown.
Proof.
  rewrite state_status_eval.
  destruct (ws (_provider hp)) as [[r]|]; simpl; [|split; discriminate].
  destruct r as [|p|p]; try (split; discriminate).
  destruct p as [[|[]|]|[|[]|]|]; split; discriminate.
Qed.

(** A readiness outside 0..3 reads as [undefined]. *)
Example state_of_unrecognized_readiness :
  status
    (state
       (set_provider
          (set_ws (Some {| readyState := 4 |}) (_provider Scenario.hp0))
          Scenario.hp0)) = None.
Proof. reflexivity. Qed.

Section Handle.

Variable env : Env.

Lemma getProviderToken_eval (hp : t) :
  getProviderToken env hp =
  (if isIosApp env || negb (tokenTimesOut env)
   then getToken env (S3RN_encode env (_s3rn hp)) (or_else (path hp) "unknown"%string)
   else Thrown TokenAcquisitionTimeout,
   set_log (log hp ++ [TokenRequested (S3RN_encode env (_s3rn hp)) (or_else (path hp) "unknown"%string)]) hp).
Proof.
  unfold getProviderToken. run.
  destruct (isIosApp env), (tokenTimesOut env); reflexivity.
Qed.

Lemma connected_logged (hp : t) (l : list Event) :
  connected (set_log l hp) = connected hp.
Proof. reflexivity. Qed.

Lemma refresh_provider_logged (hp : t) (l : list Event) (tok : ClientToken) :
  _provider (snd (refreshProvider env tok (set_log l hp))) =
  _provider (snd (refreshProvider env tok hp)).
Proof.
  unfold refreshProvider, ws_close. run.
  destruct (negb (String.eqb _ _)); simpl; [|reflexivity].
  destruct (ws (_provider hp)); reflexivity.
Qed.

Lemma connect_eval (hp : t) :
  connect env hp =
  let hp' := set_log (log hp ++ [ConnectCalled]) hp in
  if connected hp then (Returned true, hp')
  else
    try_catch
      (let* tok := getProviderToken env in
       do* refreshProvider env tok in
       do* provider_connect env in
       do* notifyListeners in
       ret true)
      (fun _ => ret false) hp'.
Proof.
  unfold connect. unfold bind at 1 2. unfold emit, modify, gets.
  cbv zeta. rewrite connected_logged.
  destruct (connected hp); reflexivity.
Qed.

(** C7.  [connect()] always resolves: to [true] at once when the handle
    is connected, without touching the transport or notifying anybody;
    otherwise to [true] when the token arrives and the transport takes
    the connect, and to [false] when the token request fails or times out
    or the transport refuses. *)
Theorem connect_never_throws (hp : t) :
  fst (connect env hp) =
  Returned
    (connected hp ||
     match fst (getProviderToken env hp) with
     | Returned tok =>
         transportOpens env (_provider (snd (refreshProvider env tok hp)))
     | Thrown _ => false
     end) /\
  (if connected hp
   then snd (connect env hp) = set_log (log hp ++ [ConnectCalled]) hp
   else True).
Proof.
  rewrite connect_eval. cbv zeta.
  destruct (connected hp) eqn:Hc; [split; reflexivity|].
  split; [|exact I]. simpl.
  unfold try_catch, bind at 1. rewrite !getProviderToken_eval. cbn [fst snd].
  destruct (if isIosApp env || negb (tokenTimesOut env) then _ else _)
    as [tok|e]; [|reflexivity].
  unfold bind at 1.
  destruct (refreshProvider env tok _) as [[[]|e] hp1] eqn:Hr.
  - pose proof (f_equal (fun x => _provider (snd x)) Hr) as Hp. simpl in Hp.
    rewrite !refresh_provider_logged in Hp. rewrite Hp.
    unfold provider_connect, notifyListeners. run.
    destruct (transportOpens env (_provider hp1)); simpl; [|reflexivity].
    destruct (ws (_provider hp1)); reflexivity.
  - exfalso. revert Hr. unfold refreshProvider, ws_close. run.
    destruct (negb (String.eqb _ _)); simpl; [|discriminate].
    destruct (ws (_provider hp)); discriminate.
Qed.

Lemma notified_quiet (st : ConnectionState) (ls : list nat) :
  List.filter is_connect_call (List.map (fun l => Notified l st) ls) = [].
Proof. induction ls as [|l ls IH]; simpl; auto. Qed.

Lemma disconnect_eval (hp : t) :
  disconnect hp =
  let down := set_ws None (set_shouldConnect false (_provider hp)) in
  let st := {| status := Some StatusDisconnected;
               intent := IntentDisconnected |} in
  (Returned tt,
   set_log (log hp ++
            (match ws (_provider hp) with
             | Some _ => [SocketClosed] | None => [] end) ++
            List.map (fun l => Notified l st) (listeners hp))
     (set_provider down hp)).
Proof.
  unfold disconnect, ws_close, notifyListeners. run.
  destruct (ws (_provider hp)) as [s|]; simpl;
    unfold set_log, set_provider, set_ws, set_shouldConnect, state; simpl;
    now rewrite <- ?app_assoc.
Qed.

Lemma connect_calls_disconnect (hp : t) :
  connect_calls (snd (disconnect hp)) = connect_calls hp.
Proof.
  rewrite disconnect_eval. cbv zeta. cbn [snd].
  unfold connect_calls. cbn [log set_log].
  rewrite !List.filter_app, notified_quiet, !List.length_app.
  destruct (ws (_provider hp)); simpl; lia.
Qed.

Lemma connect_log (hp : t) :
  exists evs,
    log (snd (connect env hp)) = log hp ++ ConnectCalled :: evs /\
    List.filter is_connect_call evs = [].
Proof.
  rewrite connect_eval. cbv zeta.
  destruct (connected hp); [exists []; split; reflexivity|].
  unfold try_catch, getProviderToken, refreshProvider, provider_connect,
    notifyListeners, ws_close. run.
  destruct (isIosApp env); [|destruct (tokenTimesOut env)]; simpl;
    try (eexists; split; [rewrite <- app_assoc; reflexivity | reflexivity]);
    (destruct (getToken env _ _) as [tok|e]; simpl;
     [| eexists; split; [rewrite <- app_assoc; reflexivity | reflexivity]];
     destruct (negb (String.eqb _ _)); simpl;
     [destruct (ws (_provider hp)); simpl|];
     destruct (transportOpens env _); simpl;
     try destruct (ws (_provider hp)); simpl;
     eexists; (split; [rewrite <- !app_assoc; reflexivity |]);
     simpl; rewrite ?List.filter_app, ?notified_quiet; reflexivity).
Qed.

Lemma connect_calls_connect (hp : t) :
  connect_calls (snd (connect env hp)) = S (connect_calls hp).
Proof.
  destruct (connect_log hp) as (evs & Hl & Hq). unfold connect_calls.
  rewrite Hl, List.filter_app. simpl. rewrite Hq, List.length_app. simpl. lia.
Qed.

Lemma onConnectionError_eval (hp : t) :
  onConnectionError env hp =
  (Returned tt,
   if should_reconnect hp
   then snd (connect env (snd (disconnect hp)))
   else snd (disconnect hp)).
Proof.
  unfold onConnectionError, should_reconnect. unfold bind at 1, gets.
  cbn [fst snd]. unfold bind at 1. rewrite disconnect_eval. cbv zeta.
  destruct (truthy (url (_provider hp)) && _ && _); [|reflexivity].
  unfold bind, unawaited.
  destruct (connect env _) as [o s]. reflexivity.
Qed.

Lemma failed_attempt_eval (hp : t) :
  failed_attempt env hp =
  let s := if should_reconnect hp
           then snd (connect env (snd (disconnect hp)))
           else snd (disconnect hp) in
  (Returned tt,
   set_provider
     (set_reconnects (wsUnsuccessfulReconnects (_provider s) + 1)
        (_provider s)) s).
Proof.
  unfold failed_attempt, bind. now rewrite onConnectionError_eval.
Qed.

Section Run.
Variable tok : ClientToken.
Hypothesis opens : forall p, transportOpens env p = true.

Lemma reconnect_eval (hp : t) :
  fst (getProviderToken env hp) = Returned tok ->
  provider_url env tok (_s3rn hp) = url (_provider hp) ->
  exists l,
    connect env (snd (disconnect hp)) =
    (Returned true,
     set_log l
       (set_provider
          (set_ws (Some {| readyState := CONNECTING |})
             (set_shouldConnect true (_provider hp)))
          (set_clientToken tok hp))).
Proof.
  intros Htok Hurl. rewrite getProviderToken_eval in Htok. cbn [fst] in Htok.
  rewrite connect_eval, disconnect_eval. cbv zeta.
  unfold connected, state. cbn [_provider set_log set_provider set_ws ws
    fmap option_fmap option_map or_else truthy truthy_Z status readyStateMap
    CLOSED Z.eqb negb snd].
  unfold try_catch. unfold bind at 1. rewrite getProviderToken_eval.
  simpl. rewrite Htok.
  unfold refreshProvider. run. rewrite Hurl, String.eqb_refl. simpl.
  unfold provider_connect. run. rewrite opens. simpl.
  unfold notifyListeners. run.
  eexists. reflexivity.
Qed.

Lemma failed_attempt_step (hp : t) :
  fst (getProviderToken env hp) = Returned tok ->
  provider_url env tok (_s3rn hp) = url (_provider hp) ->
  truthy (url (_provider hp)) = true ->
  let b := shouldConnect (_provider hp)
           && (wsUnsuccessfulReconnects (_provider hp) <? PROVIDER_MAX_ERRORS) in
  let hp' := snd (failed_attempt env hp) in
  fst (failed_attempt env hp) = Returned tt /\
  _s3rn hp' = _s3rn hp /\ path hp' = path hp /\
  url (_provider hp') = url (_provider hp) /\
  wsUnsuccessfulReconnects (_provider hp') =
    wsUnsuccessfulReconnects (_provider hp) + 1 /\
  shouldConnect (_provider hp') = b /\
  connect_calls hp' = (connect_calls hp + if b then 1 else 0)%nat.
Proof.
  intros Htok Hurl Hu b hp'. subst hp'.
  rewrite failed_attempt_eval. cbv zeta. cbn [fst snd].
  assert (Hb : should_reconnect hp = b).
  { unfold should_reconnect. now rewrite Hu. }
  rewrite Hb. destruct b.
  - destruct (reconnect_eval hp Htok Hurl) as (l & Hl).
    pose proof (connect_calls_connect (snd (disconnect hp))) as Hcc.
    rewrite Hl in Hcc |- *. cbn [snd] in Hcc |- *.
    unfold connect_calls in Hcc |- *. cbn [log set_log set_provider] in Hcc |- *.
    rewrite Hcc. rewrite disconnect_eval. cbv zeta. cbn [snd log set_log].
    rewrite !List.filter_app, notified_quiet, !List.length_app.
    destruct (ws (_provider hp)); simpl; repeat split; lia.
  - rewrite disconnect_eval. cbv zeta. cbn [snd].
    unfold connect_calls at 1. cbn [log set_provider set_log].
    rewrite !List.filter_app, notified_quiet, !List.length_app.
    destruct (ws (_provider hp)); simpl; repeat split;
      unfold connect_calls; lia.
Qed.

Lemma failed_attempts_calls (k : nat) : forall (hp : t),
  fst (getProviderToken env hp) = Returned tok ->
  provider_url env tok (_s3rn hp) = url (_provider hp) ->
  truthy (url (_provider hp)) = true ->
  connect_calls (snd (failed_attempts env k hp)) =
  (connect_calls hp +
   if shouldConnect (_provider hp)
   then Nat.min k (Z.to_nat (PROVIDER_MAX_ERRORS
                              - wsUnsuccessfulReconnects (_provider hp)))
   else 0)%nat.
Proof.
  induction k as [|k IH]; intros hp Htok Hurl Hu.
  - simpl. destruct (shouldConnect (_provider hp)); lia.
  - destruct (failed_attempt_step hp Htok Hurl Hu)
      as (Hr & Hs & Hpa & Hur & Hn & Hsc & Hc).
    cbn [failed_attempts]. unfold bind.
    destruct (failed_attempt env hp) as [[[]|e] hp1]; [|discriminate Hr].
    cbn [fst snd] in *.
    rewrite IH.
    + rewrite Hc, Hsc, Hn. unfold PROVIDER_MAX_ERRORS.
      destruct (shouldConnect (_provider hp)); cbn [andb]; [|lia].
      destruct (Z.ltb_spec (wsUnsuccessfulReconnects (_provider hp)) 3);
        lia.
    + rewrite getProviderToken_eval in Htok |- *. cbn [fst] in *.
      now rewrite Hs, Hpa.
    + now rewrite Hs, Hur.
    + now rewrite Hur.
Qed.
End Run.

(** C6.  On a [connection-error] event the handle disconnects whatever
    its state (the socket is closed and dropped, the intent is
    disconnected, every listener is told) and then calls [connect()] once
    more exactly when the url is non-empty, the intent was connected and
    fewer than three reconnects have failed in a row.  So, starting with
    intent connected, a url and no failed reconnect, and as long as the
    token keeps the url and the transport takes each connect, [k] failed
    attempts in a row lead to [min k 3] calls of [connect()]: one for each
    of the first three, none for the fourth. *)
Theorem bounded_reconnect :
  (forall hp : t,
     let down := snd (disconnect hp) in
     onConnectionError env hp =
       (Returned tt,
        if should_reconnect hp then snd (connect env down) else down) /\
     ws (_provider down) = None /\
     state down = {| status := Some StatusDisconnected;
                     intent := IntentDisconnected |} /\
     log down =
       log hp ++
       (match ws (_provider hp) with
        | Some _ => [SocketClosed] | None => [] end) ++
       List.map (fun l => Notified l (state down)) (listeners hp) /\
     connect_calls (snd (onConnectionError env hp)) =
       (connect_calls hp + if should_reconnect hp then 1 else 0)%nat) /\
  (forall (hp : t) (tok : ClientToken),
     fst (getProviderToken env hp) = Returned tok ->
     provider_url env tok (_s3rn hp) = url (_provider hp) ->
     (forall p, transportOpens env p = true) ->
     truthy (url (_provider hp)) = true ->
     shouldConnect (_provider hp) = true ->
     wsUnsuccessfulReconnects (_provider hp) = 0 ->
     forall k : nat,
       connect_calls (snd (failed_attempts env k hp)) =
       (connect_calls hp + Nat.min k 3)%nat).
Proof.
  split.
  - intros hp down. subst down.
    split; [apply onConnectionError_eval|].
    split; [now rewrite disconnect_eval|].
    split; [now rewrite disconnect_eval|].
    split; [now rewrite disconnect_eval|].
    rewrite onConnectionError_eval. cbn [snd].
    destruct (should_reconnect hp);
      rewrite ?connect_calls_connect, connect_calls_disconnect; lia.
  - intros hp tok Htok Hurl Hopen Hu Hsc Hn k.
    rewrite (failed_attempts_calls tok Hopen k hp Htok Hurl Hu), Hsc, Hn.
    reflexivity.
Qed.

End Handle.

(** [bounded_reconnect] at four failed attempts in a row. *)
Lemma bounded_reconnect_witness :
  fst (getProviderToken Scenario.env0 Scenario.hp0) = Returned Scenario.tok0 /\
  List.map
    (fun k => connect_calls (snd (failed_attempts Scenario.env0 k Scenario.hp0)))
    [1; 2; 3; 4]%nat = [1; 2; 3; 3]%nat.
Proof.
  split; [reflexivity|].
  pose proof (proj2 (bounded_reconnect Scenario.env0) Scenario.hp0
                Scenario.tok0 eq_refl eq_refl (fun _ => eq_refl) eq_refl
                eq_refl eq_refl) as H.
  cbn [List.map]. now rewrite !H.
Defined.

End HasProviderProps.

(** ** Further properties of the synchronization engine *)

Module SyncFileExtra.

Import SyncFile SyncFileSteps SyncFileMore SyncFileProps.

(** *** The hasher *)

Lemma hex_digit_inj (x y : N) :
  (x < 16)%N -> (y < 16)%N -> Hasher.hex_digit x = Hasher.hex_digit y -> x = y.
Proof.
  intros Hx Hy.
  assert (Hc : forall n, (n < 16)%N ->
             List.In n [0;1;2;3;4;5;6;7;8;9;10;11;12;13;14;15]%N).
  { intros n Hn. simpl.
    destruct n as [|p]; [auto|].
    do 4 (destruct p as [p|p|]; try lia; auto 20). }
  pose proof (Hc x Hx) as Hxs. pose proof (Hc y Hy) as Hys.
  simpl in Hxs, Hys.
  repeat (destruct Hxs as [<-|Hxs]; [|]); try contradiction;
    repeat (destruct Hys as [<-|Hys]; [|]); try contradiction;
    simpl; intros H; try reflexivity; discriminate H.
Qed.

Lemma byte_lt_256 (b : byte) : (Byte.to_N b < 256)%N.
Proof. pose proof (Byte.to_N_bounded b). lia. Qed.

Lemma hex_byte_inj (a b : byte) : Hasher.hex_byte a = Hasher.hex_byte b -> a = b.
Proof.
  unfold Hasher.hex_byte. intros H. injection H as Hhi Hlo.
  pose proof (byte_lt_256 a) as Ha. pose proof (byte_lt_256 b) as Hb.
  apply hex_digit_inj in Hhi;
    [| apply N.Div0.div_lt_upper_bound; lia
     | apply N.Div0.div_lt_upper_bound; lia].
  apply hex_digit_inj in Hlo; [| apply N.mod_lt; lia | apply N.mod_lt; lia].
  assert (Hn : Byte.to_N a = Byte.to_N b).
  { rewrite (N.div_mod (Byte.to_N a) 16), (N.div_mod (Byte.to_N b) 16) by lia.
    now rewrite Hhi, Hlo. }
  pose proof (Byte.of_to_N a) as Ea. pose proof (Byte.of_to_N b) as Eb.
  rewrite Hn in Ea. congruence.
Qed.

Lemma hex_digit_is_hex (n : N) : is_hex_char (Hasher.hex_digit n) = true.
Proof.
  destruct n as [|p]; [reflexivity|].
  do 4 (destruct p as [p|p|]; try reflexivity).
Qed.

Lemma hex_shape (bs : list byte) :
  String.length (Hasher.hex bs) = (2 * List.length bs)%nat /\
  List.forallb is_hex_char (list_ascii_of_string (Hasher.hex bs)) = true /\
  (forall bs', Hasher.hex bs = Hasher.hex bs' <-> bs = bs').
Proof.
  split; [|split].
  - induction bs as [|b bs IH]; [reflexivity|].
    change (Hasher.hex (b :: bs))
      with (String (Hasher.hex_digit (Byte.to_N b / 16))
              (String (Hasher.hex_digit (Byte.to_N b mod 16)) (Hasher.hex bs))).
    cbn [String.length List.length]. rewrite IH. lia.
  - induction bs as [|b bs IH]; [reflexivity|].
    change (Hasher.hex (b :: bs))
      with (String (Hasher.hex_digit (Byte.to_N b / 16))
              (String (Hasher.hex_digit (Byte.to_N b mod 16)) (Hasher.hex bs))).
    cbn [list_ascii_of_string List.forallb].
    now rewrite !hex_digit_is_hex, IH.
  - induction bs as [|b bs IH]; intros [|b' bs']; split; intros H;
      try reflexivity; try discriminate H.
    + change (Hasher.hex (b :: bs))
        with (String (Hasher.hex_digit (Byte.to_N b / 16))
                (String (Hasher.hex_digit (Byte.to_N b mod 16))
                   (Hasher.hex bs))) in H.
      change (Hasher.hex (b' :: bs'))
        with (String (Hasher.hex_digit (Byte.to_N b' / 16))
                (String (Hasher.hex_digit (Byte.to_N b' mod 16))
                   (Hasher.hex bs'))) in H.
      injection H as H1 H2 H3.
      assert (Hb : b = b').
      { apply hex_byte_inj. unfold Hasher.hex_byte. now rewrite H1, H2. }
      apply IH in H3. now subst.
    + now injection H as -> ->.
Qed.

Section Engine.

Variable digest : list byte -> list byte.
Variable getPath : string -> string.
Variable refuses : list CasRecord -> FileMeta -> list byte -> bool.

(** X1.  The hash of a content is its digest in lowercase hexadecimal,
    two characters a byte, so 64 characters for the 32 bytes of SHA-256;
    two contents have the same hash exactly when they have the same
    digest. *)
Theorem generateHash_faithful (a b : list byte) :
  String.length (generateHash digest a)
    = (2 * List.length (digest a))%nat /\
  List.forallb is_hex_char (list_ascii_of_string (generateHash digest a))
    = true /\
  (generateHash digest a = generateHash digest b <-> digest a = digest b).
Proof.
  unfold generateHash, Hasher.generateHash.
  destruct (hex_shape (digest a)) as (Hl & Hc & Hi).
  split; [exact Hl|]. split; [exact Hc | apply Hi].
Qed.

(** *** [getHash], [move] and the getters *)

(** X2.  [getHash()] answers from the cache, without a look at the vault,
    when a hash is cached and no recomputation is asked for, whatever the
    bytes on disk are by now; otherwise it reads the bytes once, caches
    their hash and returns it, and fails with
    [LocalMaterializationMissing] when the vault has no file at the
    path. *)
Theorem getHash_cache (compute : bool) (f : t) (w : World) :
  getHash digest getPath compute (f, w) =
  match _filehash f, compute with
  | Some h, false => (Returned (Some h), (f, w))
  | _, _ =>
      match vault w !! getPath (path f) with
      | Some (VFile content _) =>
          (Returned (Some (generateHash digest content)),
           (set_filehash (Some (generateHash digest content)) f,
            log [VaultReadBinary (getPath (path f))] w))
      | _ => (Thrown LocalMaterializationMissing, (f, w))
      end
  end.
Proof.
  unfold getHash. run.
  destruct (_filehash f) as [h|] eqn:Hf, compute; simpl;
    try (rewrite updateStats_eval;
         destruct (vault w !! getPath (path f)) as [[content st|]|];
         reflexivity).
  now rewrite Hf.
Qed.


(** X24.  [lastModified] is the modification time of what the vault has
    at the path of the file at the time of the call, not of the handle the
    file was made from; it fails with [LocalMaterializationMissing] when
    the vault has a folder or nothing there, and changes nothing.  Of the
    file, the path alone matters. *)
Theorem lastModified_of_vault (f : t) (w : World) :
  lastModified getPath (f, w) =
    (match vault w !! getPath (path f) with
     | Some (VFile _ st) => Returned (mtime st)
     | _ => Thrown LocalMaterializationMissing
     end, (f, w)) /\
  (forall f2, path f2 = path f ->
     fst (lastModified getPath (f2, w)) = fst (lastModified getPath (f, w))).
Proof.
  assert (He : forall g : t, lastModified getPath (g, w) =
    (match vault w !! getPath (path g) with
     | Some (VFile _ st) => Returned (mtime st)
     | _ => Thrown LocalMaterializationMissing
     end, (g, w))).
  { intros g. unfold lastModified, stat, tfile. run.
    destruct (vault w !! getPath (path g)) as [[content st|]|];
      reflexivity. }
  split; [apply He|].
  intros f2 Hp. now rewrite !He, Hp.
Qed.

End Engine.

(** X4.  Reading [isStale] or [shouldPull] does nothing to the state.
    Reading [shouldPush] sends one [getByHash(serverHash)] to the store
    whenever the server hash is a non-empty string, and does nothing else;
    the answer of the store has no part in what the getter returns. *)
Theorem getters_effects (f : t) (w : World) :
  snd (isStale (f, w)) = (f, w) /\
  snd (shouldPull (f, w)) = (f, w) /\
  snd (shouldPush (f, w)) =
    (f, match hashes w !! guid f with
        | Some (String a h) => log [CasGetByHash (String a h)] w
        | _ => w
        end) /\
  (forall c, fst (shouldPush (f, set_cas c w)) = fst (shouldPush (f, w))).
Proof.
  split; [reflexivity|]. split; [reflexivity|]. split.
  - unfold shouldPush. run. rewrite getRemote_eval. simpl.
    unfold remote_events.
    destruct (hashes w !! guid f) as [[|a h]|]; try reflexivity;
      (f_equal; apply world_ext; simpl; now rewrite ?app_nil_r).
  - intros c. unfold shouldPush. run.
    destruct (getRemote (f, set_cas c w)) as [o s].
    destruct (getRemote (f, w)) as [o' s']. reflexivity.
Qed.

(** *** What [push] and [pull] never touch *)

Section Frame.

Context {X : Type} (part : State -> X).

Lemma frame_ret {A} (a : A) : keeps part (ret a).
Proof. now intros s. Qed.

Lemma frame_throw {A} (e : Error) : keeps part (@throw State A e).
Proof. now intros s. Qed.

Lemma frame_gets {A} (g : State -> A) : keeps part (gets g).
Proof. now intros s. Qed.

Lemma frame_modify (g : State -> State) :
  (forall s, part (g s) = part s) -> keeps part (modify g).
Proof. intros Hg s. apply Hg. Qed.

Lemma frame_bind {A B} (c : M State A) (k : A -> M State B) :
  keeps part c -> (forall a, keeps part (k a)) -> keeps part (bind c k).
Proof.
  intros Hc Hk s. unfold bind. specialize (Hc s).
  destruct (c s) as [[a|e] s1]; simpl in *; [|exact Hc].
  now rewrite Hk.
Qed.

Lemma frame_try_catch {A} (c : M State A) (h : Error -> M State A) :
  keeps part c -> (forall e, keeps part (h e)) -> keeps part (try_catch c h).
Proof.
  intros Hc Hh s. unfold try_catch. specialize (Hc s).
  destruct (c s) as [[a|e] s1]; simpl in *; [exact Hc|].
  now rewrite Hh.
Qed.

Lemma frame_unawaited {A} (c : M State A) :
  keeps part c -> keeps part (unawaited c).
Proof.
  intros Hc s. unfold unawaited. specialize (Hc s).
  now destruct (c s) as [o s1].
Qed.

End Frame.

Ltac frame :=
  repeat first
    [ progress intros
    | assumption
    | apply frame_ret
    | apply frame_throw
    | apply frame_gets
    | apply frame_modify; intros [? ?]; reflexivity
    | apply frame_bind
    | apply frame_try_catch
    | apply frame_unawaited
    | match goal with
      | |- keeps _ (if ?b then _ else _) => destruct b
      | |- keeps _ (match ?x with _ => _ end) => destruct x
      end ].

Ltac primitives :=
  unfold updateStats, stat, tfile, getRemote, serverHash,
    vault_getAbstractFileByPath, vault_readBinary, adapter_writeBinary,
    cas_getByHash, cas_readFile, cas_writeFile, uuidv4, Date_now,
    ydoc_transact, emit, update_this, update_world, this, world.

Section Engine2.

Variable digest : list byte -> list byte.
Variable getPath : string -> string.
Variable refuses : list CasRecord -> FileMeta -> list byte -> bool.

(** X5.  Whether it returns or throws, [push()] leaves the local byte
    store as it is, and [pull()] leaves the store of remote contents and
    both shared maps as they are. *)
Theorem push_pull_sides :
  keeps local_bytes (push digest getPath refuses) /\
  keeps shared_side (pull digest getPath).
Proof.
  split.
  - unfold push. primitives. frame.
  - unfold pull. primitives. frame.
Qed.

Lemma push_without_file (f : t) (w : World) :
  as_TFile (getPath (path f)) (vault w !! getPath (path f)) = None ->
  fst (push digest getPath refuses (f, w)) = Thrown LocalMaterializationMissing.
Proof.
  intros Hv. unfold push. unfold bind at 1. rewrite getRemote_eval.
  unfold bind at 1. rewrite updateStats_eval. cbn [log set_trace vault path fst].
  destruct (vault w !! getPath (path f)) as [[content st|]|];
    [discriminate Hv | reflexivity | reflexivity].
Qed.

Lemma push_in_step (f f' : t) (w w' : World) (h : string) :
  push digest getPath refuses (f, w) = (Returned h, (f', w')) ->
  in_step digest getPath f' w' /\ _filehash f' = Some h /\
  hashes w' !! guid f' = Some h.
Proof.
  intros H.
  destruct (vault w !! getPath (path f)) as [[content st|]|] eqn:Hv.
  - rewrite (push_eval digest getPath refuses f w content st Hv) in H.
    assert (Hs : pushed digest getPath refuses f w content st = (f', w'))
      by congruence.
    assert (Hh : generateHash digest content = h) by congruence.
    subst h. clear H.
    destruct (pushed_file digest getPath refuses f w content st)
      as (Hp & Hg & Hf & _).
    destruct (pushed_world digest getPath refuses f w content st)
      as (Hva & _).
    pose proof (pushed_shared_hash digest getPath refuses f w content st) as Hsh.
    rewrite Hs in Hp, Hg, Hf, Hva, Hsh. cbn [fst snd] in *.
    split; [|split]; [| exact Hf | now rewrite Hg].
    exists content, st. now rewrite Hva, Hp.
  - pose proof (push_without_file f w) as Hn. rewrite Hv, H in Hn.
    discriminate (Hn eq_refl).
  - pose proof (push_without_file f w) as Hn. rewrite Hv, H in Hn.
    discriminate (Hn eq_refl).
Qed.

Lemma pull_in_step (f f' : t) (w w' : World) :
  pull digest getPath (f, w) = (Returned tt, (f', w')) ->
  in_step digest getPath f' w'.
Proof.
  rewrite pull_eval. intros H.
  destruct (hashes w !! guid f) as [[|a h]|]; try discriminate.
  simpl in H.
  destruct (lookup_hash (cas w) (String a h)) as [fi|]; try discriminate.
  destruct (lookup_id (cas w) (fi_id fi)) as [content|]; try discriminate.
  destruct (vault w !! getPath (path f)) as [[c st|]|];
    try discriminate; injection H as <- <-; simpl;
    eexists; eexists; (split; [apply lookup_insert_eq | reflexivity]).
Qed.

(** X6.  When [sync()] on a connected file returns, the cached hash is the
    hash of the bytes the vault then has at the path of the file, whether
    the sync pulled or pushed. *)
Theorem sync_leaves_in_step (f f' : t) (w w' : World) :
  connected f = true ->
  sync digest getPath refuses (f, w) = (Returned tt, (f', w')) ->
  in_step digest getPath f' w'.
Proof.
  intros Hc. unfold sync. run. rewrite Hc. simpl.
  destruct (_tfile f) as [tf|]; simpl; [|apply pull_in_step].
  unfold getHash. run. rewrite orb_true_r, updateStats_eval.
  destruct (vault w !! getPath (path f)) as [[content st|]|]; simpl;
    try discriminate.
  destruct (strict_neq _ _ && _); [apply pull_in_step|].
  destruct (push digest getPath refuses _) as [[h|e] [f1 w1]] eqn:Hp;
    [|discriminate].
  intros H. injection H as <- <-.
  now apply push_in_step in Hp.
Qed.

(** X7.  When [push()] returns, the shared map names the returned hash for
    the file and the file is not stale. *)
Theorem push_settles (f f' : t) (w w' : World) (h : string) :
  push digest getPath refuses (f, w) = (Returned h, (f', w')) ->
  fst (serverHash (f', w')) = Returned (Some h) /\
  fst (isStale (f', w')) = Returned false.
Proof.
  intros H. apply push_in_step in H as (_ & Hf & Hs).
  unfold serverHash, isStale. run. rewrite Hf, Hs. split; [reflexivity|].
  unfold strict_neq. now rewrite bool_decide_eq_true_2.
Qed.

(** *** From the constructor to the first sync *)

Lemma sync_with_file (f : t) (w : World) (tf : TFile) (content : list byte)
    (st : FileStats) :
  connected f = true -> _tfile f = Some tf ->
  vault w !! getPath (path f) = Some (VFile content st) ->
  sync digest getPath refuses (f, w) =
  let h := generateHash digest content in
  let recomputed :=
    (set_filehash (Some h) f, log [VaultReadBinary (getPath (path f))] w) in
  if strict_neq (Some h) (hashes w !! guid f)
     && (synctime f <? or_else (synctimes w !! guid f) 0)
  then pull digest getPath recomputed
  else (do* push digest getPath refuses in ret tt) recomputed.
Proof.
  intros Hc Ht Hv. unfold sync. run. rewrite Hc, Ht. simpl.
  unfold getHash. run. rewrite orb_true_r, updateStats_eval, Hv. simpl.
  unfold isStale, shouldPull. run.
  destruct (strict_neq _ _ && _); reflexivity.
Qed.


(** X10.  A file made by [fromTFile] from a local file the shared maps do
    not know yet, whose modification time is not negative, pushes on its
    first [sync()]: the sync returns, the shared map then names the hash
    of the local bytes for the new guid, the shared sync time is the
    file's own, and the vault is as it was. *)
Theorem first_sync_of_local_file (getVirtualPath : string -> string)
    (tf : TFile) (w : World) (content : list byte) (st : FileStats) :
  let p := getVirtualPath (tf_path tf) in
  let g := List.hd EmptyString (uuids w) in
  vault w !! getPath p = Some (VFile content st) ->
  hashes w !! g = None ->
  synctimes w !! g = None ->
  0 <= mtime st ->
  let made := fromTFile getPath getVirtualPath tf w in
  let r := sync digest getPath refuses made in
  guid (fst made) = g /\
  fst r = Returned tt /\
  hashes (snd (snd r)) !! g = Some (generateHash digest content) /\
  synctimes (snd (snd r)) !! g = Some (synctime (fst (snd r))) /\
  vault (snd (snd r)) = vault w.
Proof.
  intros p g Hv Hh Hs Hm made r.
  set (f := fst made). set (w1 := snd made).
  assert (Hmade : made = (f, w1)) by reflexivity.
  assert (Hg : guid f = g) by reflexivity.
  assert (Hp : path f = p) by reflexivity.
  assert (Hv1 : vault w1 !! getPath (path f) = Some (VFile content st))
    by (rewrite Hp; exact Hv).
  assert (Ht : _tfile f = Some {| tf_path := getPath p; tf_stat := st |}).
  { subst f made. unfold fromTFile, constructor. cbn [fst _tfile vault set_uuids].
    fold p. now rewrite Hv. }
  assert (Hsy : synctime f = mtime st).
  { subst f made. unfold fromTFile, constructor.
    cbn [fst synctime vault set_uuids]. fold p. rewrite Hv.
    cbn [as_TFile fmap option_fmap option_map tf_stat or_else].
    unfold truthy, truthy_Z. now destruct (Z.eqb_spec (mtime st) 0). }
  subst r. rewrite Hmade.
  rewrite (sync_with_file f w1 _ content st eq_refl Ht Hv1). cbv zeta.
  replace (hashes w1) with (hashes w) by reflexivity.
  replace (synctimes w1) with (synctimes w) by reflexivity.
  rewrite Hg, Hh, Hs, Hsy. cbn [or_else].
  replace (mtime st <? 0) with false by (symmetry; apply Z.ltb_ge; lia).
  rewrite andb_false_r.
  set (f2 := set_filehash (Some (generateHash digest content)) f).
  set (w2 := log [VaultReadBinary (getPath (path f))] w1).
  assert (Hv2 : vault w2 !! getPath (path f2) = Some (VFile content st))
    by exact Hv1.
  unfold bind. rewrite (push_eval digest getPath refuses f2 w2 content st Hv2).
  cbn [fst snd ret].
  destruct (pushed_file digest getPath refuses f2 w2 content st)
    as (_ & _ & _ & Hst).
  destruct (pushed_world digest getPath refuses f2 w2 content st)
    as (Hva & _ & Hhs & Hss & _).
  assert (Hd : differs_from_shared f2 w2 (generateHash digest content) = true).
  { unfold differs_from_shared.
    replace (hashes w2 !! guid f2) with (hashes w !! g) by reflexivity.
    now rewrite Hh. }
  rewrite Hd in Hhs, Hss.
  split; [reflexivity|]. split; [reflexivity|].
  rewrite Hhs, Hss, Hva, Hst.
  replace (guid f2) with g by reflexivity.
  rewrite !lookup_insert_eq. repeat split.
Qed.

(** *** Push here, pull there *)

Lemma fresh_id_above (c : list CasRecord) (r : CasRecord) :
  List.In r c -> (fi_id (fst r) < fresh_id c)%nat.
Proof.
  unfold fresh_id. induction c as [|x c IH]; simpl; [contradiction|].
  intros [->|H]; [lia|]. specialize (IH H). lia.
Qed.

Lemma lookup_id_absent (c : list CasRecord) (n : nat) (m : FileMeta)
    (b : list byte) :
  (forall r, List.In r c -> Nat.eqb (fi_id (fst r)) n = false) ->
  lookup_id (c ++ [({| fi_id := n; fi_meta := m |}, b)]) n = Some b.
Proof.
  unfold lookup_id. induction c as [|x c IH]; intros Hn; simpl.
  - now rewrite Nat.eqb_refl.
  - rewrite (Hn x) by now left. apply IH. intros r Hr. apply Hn. now right.
Qed.

Lemma lookup_id_new (c : list CasRecord) (m : FileMeta) (b : list byte) :
  lookup_id (c ++ [({| fi_id := fresh_id c; fi_meta := m |}, b)]) (fresh_id c)
  = Some b.
Proof.
  apply lookup_id_absent. intros r Hr. apply Nat.eqb_neq.
  pose proof (fresh_id_above c r Hr). lia.
Qed.

Lemma lookup_hash_new (c : list CasRecord) (r : CasRecord) (h : string) :
  lookup_hash c h = None -> fi_synchash (fst r) = h ->
  lookup_hash (c ++ [r]) h = Some (fst r).
Proof.
  unfold lookup_hash. intros Hn Hr. induction c as [|x c IH]; simpl in *.
  - now rewrite Hr, String.eqb_refl.
  - destruct (String.eqb (fi_synchash (fst x)) h); [discriminate Hn|].
    now apply IH.
Qed.

(** X11.  What one consumer pushes, another pulls: when the store has no
    record of the hash of the local bytes yet and takes the record, a
    [pull()] by any file of the same guid that sees the same store and
    shared map, into a vault where its path is not a folder, returns and
    writes exactly the pushed bytes at the path of that file, and caches
    the pushed hash. *)
Theorem push_then_pull (f f2 : t) (w w2 : World) (content : list byte)
    (st : FileStats) :
  let h := generateHash digest content in
  let pushed_state := snd (push digest getPath refuses (f, w)) in
  vault w !! getPath (path f) = Some (VFile content st) ->
  truthy h = true ->
  lookup_hash (cas w) h = None ->
  refuses (cas w) (push_meta f w h st) content = false ->
  guid f2 = guid f ->
  cas w2 = cas (snd pushed_state) ->
  hashes w2 = hashes (snd pushed_state) ->
  vault w2 !! getPath (path f2) <> Some VFolder ->
  let r := pull digest getPath (f2, w2) in
  fst r = Returned tt /\
  (exists st', vault (snd (snd r)) !! getPath (path f2)
               = Some (VFile content st')) /\
  _filehash (fst (snd r)) = Some h.
Proof.
  intros h pushed_state Hv Hh Hnone Htake Hg Hc Hm Hnf r.
  assert (Hps : pushed_state = pushed digest getPath refuses f w content st).
  { subst pushed_state. now rewrite (push_eval _ _ _ f w content st Hv). }
  assert (Hd : differs_from_remote f w h = true).
  { unfold differs_from_remote, remote_of.
    destruct (hashes w !! guid f) as [[|a x]|]; try reflexivity.
    destruct (lookup_hash (cas w) (String a x)) as [fi|] eqn:Hl;
      [|reflexivity].
    pose proof (lookup_hash_synchash _ _ _ Hl) as Hfi. rewrite Hfi.
    destruct (String.eqb_spec (String a x) h) as [E|]; [|reflexivity].
    rewrite E in Hl. congruence. }
  destruct (pushed_world digest getPath refuses f w content st)
    as (_ & Hcas & _).
  pose proof (pushed_shared_hash digest getPath refuses f w content st) as Hsh.
  rewrite after_write_cas in Hcas. fold h in Hcas, Hsh.
  rewrite Hd, Htake in Hcas. cbn [andb negb] in Hcas.
  rewrite <- Hps in Hcas, Hsh. rewrite <- Hc in Hcas. rewrite <- Hm, <- Hg in Hsh.
  assert (Hdef : generateHash digest content = h) by reflexivity.
  clearbody h.
  subst r. rewrite pull_eval, Hsh.
  destruct h as [|a x]; [discriminate Hh|].
  cbv beta iota zeta. rewrite Hcas.
  set (fi := {| fi_id := fresh_id (cas w);
                fi_meta := push_meta f w (String a x) st |}).
  match goal with
  | |- context [lookup_hash ?c (String a x)] =>
      assert (Hl : lookup_hash c (String a x) = Some fi)
        by exact (lookup_hash_new (cas w) (fi, content) (String a x)
                    Hnone eq_refl);
      rewrite Hl
  end.
  match goal with
  | |- context [lookup_id ?c (fi_id fi)] =>
      assert (Hi : lookup_id c (fi_id fi) = Some content)
        by exact (lookup_id_new (cas w) (push_meta f w (String a x) st)
                    content);
      rewrite Hi
  end.
  destruct (vault w2 !! getPath (path f2)) as [[c0 st0|]|];
    [| congruence |]; cbn [fst snd set_vault vault set_tfile set_filehash
                           _filehash];
    (split; [reflexivity|]; split; [|now rewrite Hdef]);
    eexists; apply lookup_insert_eq.
Qed.

End Engine2.


Example connect_though_folder_refused :
  connect (set_connected false Scenario.f0, ScenarioMore.w_refused) =
  (Returned true, (Scenario.f0, ScenarioMore.w_refused)).
Proof. reflexivity. Qed.

(** *** The properties above at the files of the scenario *)

(** [sync_leaves_in_step] at the first sync of the one local file. *)
Lemma sync_leaves_in_step_witness :
  in_step Scenario.toy_digest Scenario.toy_getPath
    (fst (snd (sync Scenario.toy_digest Scenario.toy_getPath
                 Scenario.reject_duplicates (Scenario.f0, Scenario.w0))))
    (snd (snd (sync Scenario.toy_digest Scenario.toy_getPath
                 Scenario.reject_duplicates (Scenario.f0, Scenario.w0)))).
Proof.
  apply (sync_leaves_in_step Scenario.toy_digest Scenario.toy_getPath
           Scenario.reject_duplicates Scenario.f0 _ Scenario.w0 _).
  - reflexivity.
  - vm_compute; reflexivity.
Defined.

(** [push_settles] at the first push of the one local file. *)
Lemma push_settles_witness :
  let r := push Scenario.toy_digest Scenario.toy_getPath
             Scenario.reject_duplicates (Scenario.f0, Scenario.w0) in
  fst (serverHash (fst (snd r), snd (snd r)))
    = Returned (Some "6869"%string) /\
  fst (isStale (fst (snd r), snd (snd r))) = Returned false.
Proof.
  cbv zeta.
  apply (push_settles Scenario.toy_digest Scenario.toy_getPath
           Scenario.reject_duplicates Scenario.f0 _ Scenario.w0 _
           "6869"%string).
  vm_compute; reflexivity.
Defined.


(** [first_sync_of_local_file] at the one local file of the scenario. *)
Lemma first_sync_of_local_file_witness :
  let made := fromTFile Scenario.toy_getPath ScenarioMore.toy_getVirtualPath
                ScenarioMore.tf0 Scenario.w0 in
  let r := sync Scenario.toy_digest Scenario.toy_getPath
             Scenario.reject_duplicates made in
  guid (fst made) = "u1"%string /\
  fst r = Returned tt /\
  hashes (snd (snd r)) !! "u1"%string = Some "6869"%string.
Proof.
  pose proof (first_sync_of_local_file Scenario.toy_digest
                Scenario.toy_getPath Scenario.reject_duplicates
                ScenarioMore.toy_getVirtualPath ScenarioMore.tf0 Scenario.w0
                [x68; x69] {| ctime := 5; mtime := 7; size := 2 |}) as H.
  cbv zeta in H.
  destruct H as (H1 & H2 & H3 & _).
  - vm_compute; reflexivity.
  - vm_compute; reflexivity.
  - vm_compute; reflexivity.
  - simpl; lia.
  - cbv zeta. split; [exact H1|]. split; [exact H2 | exact H3].
Defined.

(** [push_then_pull] at a second consumer with an empty vault of its
    own. *)
Lemma push_then_pull_witness :
  let r := pull Scenario.toy_digest Scenario.toy_getPath
             (ScenarioMore.f_peer, ScenarioMore.w_peer) in
  fst r = Returned tt /\
  (exists st', vault (snd (snd r)) !! Scenario.toy_getPath "inbox/a.md"
               = Some (VFile [x68; x69] st')) /\
  _filehash (fst (snd r)) = Some "6869"%string.
Proof.
  pose proof (push_then_pull Scenario.toy_digest Scenario.toy_getPath
                Scenario.reject_duplicates Scenario.f0 ScenarioMore.f_peer
                Scenario.w0 ScenarioMore.w_peer
                [x68; x69] {| ctime := 5; mtime := 7; size := 2 |}) as H.
  cbv zeta in H. cbv zeta. apply H.
  - vm_compute; reflexivity.
  - reflexivity.
  - reflexivity.
  - vm_compute; reflexivity.
  - reflexivity.
  - vm_compute; reflexivity.
  - vm_compute; reflexivity.
  - vm_compute; discriminate.
Defined.

End SyncFileExtra.

(** ** Further properties of the connection state machine *)

Module HasProviderExtra.

Import HasProvider HasProviderMore HasProviderProps.

Lemma hp_ext (a b : t) :
  _provider a = _provider b -> _s3rn a = _s3rn b -> path a = path b ->
  clientToken a = clientToken b -> listeners a = listeners b ->
  log a = log b -> a = b.
Proof. destruct a, b; simpl; congruence. Qed.

Lemma provider_ext (p q : Provider) :
  url p = url q -> shouldConnect p = shouldConnect q ->
  wsUnsuccessfulReconnects p = wsUnsuccessfulReconnects q ->
  ws p = ws q -> synced p = synced q -> p = q.
Proof. destruct p, q; simpl; congruence. Qed.

(** *** Channel ids *)

Lemma append_dash_inj (a c b d : string) :
  String.length a = String.length c ->
  (a +:+ "-" +:+ b)%string = (c +:+ "-" +:+ d)%string -> a = c /\ b = d.
Proof.
  revert c. induction a as [|x a IH]; intros [|y c] Hl H; simpl in *;
    try discriminate Hl.
  - injection H as H. now split.
  - injection Hl as Hl. injection H as -> H.
    destruct (IH c Hl H) as [-> ->]. now split.
Qed.

(** X12.  The channel id of a remote document is made of its relay id and
    its document id, and of nothing else: among remote documents whose
    relay ids have the same length, as ids of one format have, equal
    channel ids mean equal relay and equal document, whatever the
    folders. *)
Theorem docId_of_remote_documents (r1 f1 d1 r2 f2 d2 : string) :
  String.length r1 = String.length r2 ->
  (s3rnToYsweetDocId (S3RemoteDocument r1 f1 d1) =
   s3rnToYsweetDocId (S3RemoteDocument r2 f2 d2)
   <-> r1 = r2 /\ d1 = d2).
Proof.
  intros Hl. cbn [s3rnToYsweetDocId]. split.
  - now apply append_dash_inj.
  - now intros [-> ->].
Qed.

(** Relay ids of different lengths can collide; every address that is
    neither a remote document nor a remote folder, the remote file
    included, has the one id of a single dash. *)
Example docId_collisions :
  s3rnToYsweetDocId (S3RemoteDocument "a-b" "F" "c") =
  s3rnToYsweetDocId (S3RemoteDocument "a" "F" "b-c") /\
  s3rnToYsweetDocId (S3RemoteFile "R" "F" "g1") =
  s3rnToYsweetDocId (S3File "F" "g2").
Proof. split; reflexivity. Qed.

(** *** Listeners *)



(** *** [disconnect] *)

(** X14.  After [disconnect()] the handle is not connected and its intent
    is disconnected.  Disconnecting again changes nothing on the
    transport and closes no socket; it tells every listener once more. *)
Theorem disconnect_twice (hp : t) :
  let once := snd (disconnect hp) in
  let twice := snd (disconnect once) in
  connected once = false /\
  intent (state once) = IntentDisconnected /\
  _provider twice = _provider once /\
  log twice =
    log once ++ List.map (fun l => Notified l (state once)) (listeners hp).
Proof.
  cbv zeta. rewrite !disconnect_eval. cbv zeta. cbn [snd].
  repeat split.
Qed.

Section Handle.

Variable env : Env.

(** *** [refreshProvider] and rebinding *)

Lemma refreshProvider_eval (tok : ClientToken) (hp : t) :
  refreshProvider env tok hp =
  let newUrl := provider_url env tok (_s3rn hp) in
  let swapped := set_reconnects 0 (set_url newUrl (_provider hp)) in
  (Returned tt,
   if String.eqb (url (_provider hp)) newUrl then set_clientToken tok hp
   else
     match ws (_provider hp) with
     | Some s =>
         set_log (log hp ++ [SocketClosed])
           (set_provider
              (set_ws (Some {| readyState :=
                                 if (readyState s =? CLOSED)%Z
                                 then CLOSED else CLOSING |}) swapped)
              (set_clientToken tok hp))
     | None => set_provider swapped (set_clientToken tok hp)
     end).
Proof.
  unfold refreshProvider, ws_close. run.
  destruct (String.eqb _ _); simpl; [reflexivity|].
  destruct (ws (_provider hp)); reflexivity.
Qed.

Lemma refreshProvider_facts (tok : ClientToken) (hp : t) :
  let newUrl := provider_url env tok (_s3rn hp) in
  let r := snd (refreshProvider env tok hp) in
  fst (refreshProvider env tok hp) = Returned tt /\
  clientToken r = tok /\ url (_provider r) = newUrl /\
  _s3rn r = _s3rn hp /\ listeners r = listeners hp /\
  shouldConnect (_provider r) = shouldConnect (_provider hp) /\
  (if String.eqb (url (_provider hp)) newUrl
   then _provider r = _provider hp /\ log r = log hp
   else wsUnsuccessfulReconnects (_provider r) = 0 /\
        log r = log hp ++ match ws (_provider hp) with
                          | Some _ => [SocketClosed] | None => [] end) /\
  refreshProvider env tok r = (Returned tt, r).
Proof.
  cbv zeta. pose proof (refreshProvider_eval tok hp) as E. cbv zeta in E.
  destruct (String.eqb (url (_provider hp)) (provider_url env tok (_s3rn hp)))
    eqn:He.
  - rewrite E. cbn [fst snd]. apply String.eqb_eq in He as Hu.
    repeat split; try exact Hu.
    rewrite refreshProvider_eval. cbv zeta.
    cbn [_provider _s3rn set_clientToken].
    rewrite He; try (f_equal; now apply hp_ext).
  - rewrite E. destruct (ws (_provider hp)) as [sock|]; cbn [fst snd];
      (repeat split; try (simpl; now rewrite ?app_nil_r);
       rewrite refreshProvider_eval; cbv zeta;
       cbn [_provider _s3rn set_clientToken set_log set_provider url set_ws
              set_reconnects set_url];
       rewrite String.eqb_refl; try (f_equal; now apply hp_ext)).
Qed.

(** X15.  [refreshProvider(token)] stores the token and leaves the
    transport at the url made from the token and the address.  When that
    url is the one the transport has, the transport is not touched; when
    it differs, the count of failed reconnects is reset to 0 and the
    socket, if there is one, is closed.  Listeners are not told in either
    case, and refreshing again with the same token changes nothing. *)
Theorem refreshProvider_swap (tok : ClientToken) (hp : t) :
  let newUrl := provider_url env tok (_s3rn hp) in
  let r := snd (refreshProvider env tok hp) in
  fst (refreshProvider env tok hp) = Returned tt /\
  clientToken r = tok /\ url (_provider r) = newUrl /\
  _s3rn r = _s3rn hp /\ listeners r = listeners hp /\
  shouldConnect (_provider r) = shouldConnect (_provider hp) /\
  (if String.eqb (url (_provider hp)) newUrl
   then _provider r = _provider hp /\ log r = log hp
   else wsUnsuccessfulReconnects (_provider r) = 0 /\
        log r = log hp ++ match ws (_provider hp) with
                          | Some _ => [SocketClosed] | None => [] end) /\
  refreshProvider env tok r = (Returned tt, r).
Proof. exact (refreshProvider_facts tok hp). Qed.

(** X16.  Rebinding the handle to an address stores the address, keeps
    the token, and leaves the transport at the url made from the token
    and the new address; binding it to the address it has, with a
    transport already at that url, changes nothing. *)
Theorem rebinding (value : S3RNType) (hp : t) :
  let r := snd (set_s3rn env value hp) in
  fst (set_s3rn env value hp) = Returned tt /\
  _s3rn r = value /\ clientToken r = clientToken hp /\
  url (_provider r) = provider_url env (clientToken hp) value /\
  (url (_provider hp) = provider_url env (clientToken hp) (_s3rn hp) ->
   set_s3rn env (_s3rn hp) hp = (Returned tt, hp)).
Proof.
  assert (E : forall v, set_s3rn env v hp =
                        refreshProvider env (clientToken hp)
                          (set_s3rn_field v hp)).
  { intros v. unfold set_s3rn, bind, modify, gets. cbn [fst snd].
    now destruct (refreshProvider env _ _) as [[[]|e] s]. }
  cbv zeta. rewrite !E.
  destruct (refreshProvider_facts (clientToken hp) (set_s3rn_field value hp))
    as (Hr & Ht & Hu & Hs & _).
  cbv zeta in Hr, Ht, Hu, Hs.
  split; [exact Hr|]. split; [exact Hs|]. split; [exact Ht|].
  split; [exact Hu|].
  intros Hsame. rewrite refreshProvider_eval. cbv zeta.
  cbn [_provider _s3rn set_s3rn_field clientToken].
  rewrite <- Hsame, String.eqb_refl; try (f_equal; now apply hp_ext).
Qed.

(** *** [connect], case by case *)



(** X17.  When the token cannot be had, [connect()] on a handle that is
    not connected resolves [false] and has done nothing but ask for the
    token: transport, stored token and listeners are as before and nobody
    is told. *)
Theorem connect_without_token (hp : t) (e : Error) :
  connected hp = false ->
  fst (getProviderToken env hp) = Thrown e ->
  connect env hp =
  (Returned false,
   set_log (log hp ++ [ConnectCalled;
                       TokenRequested (token_key env hp) (token_path hp)]) hp).
Proof.
  intros Hc Ht. rewrite connect_eval, Hc. cbv zeta.
  unfold try_catch. unfold bind at 1.
  rewrite getProviderToken_eval in Ht |- *. cbn [fst] in Ht.
  cbn [_s3rn path set_log]. rewrite Ht. unfold ret.
  f_equal. apply hp_ext; try reflexivity. cbn [log set_log].
  now rewrite <- app_assoc.
Qed.



(** *** [providerActive] and [withActiveProvider] *)

(** X20.  The handle is active exactly when the transport is at the url of
    the stored token and the token has not expired.  [withActiveProvider()]
    then resolves without asking for a token; otherwise it asks for one
    and, unlike [connect()], rejects when that fails.  In neither case
    does it touch the transport or the stored token. *)
Theorem withActiveProvider_outcome (now : Z) (hp : t) :
  providerActive now hp =
    String.eqb (url (_provider hp)) (ct_url (clientToken hp))
    && (now <=? expiryTime (clientToken hp)) /\
  withActiveProvider env now hp =
    if providerActive now hp then (Returned tt, hp)
    else
      (match fst (getProviderToken env hp) with
       | Returned _ => Returned tt
       | Thrown e => Thrown e
       end,
       set_log (log hp ++ [TokenRequested (token_key env hp) (token_path hp)]) hp).
Proof.
  split.
  - unfold providerActive. f_equal.
    assert (Ho : or_else (Some (expiryTime (clientToken hp))) 0
                 = expiryTime (clientToken hp)).
    { cbn [or_else]. unfold truthy, truthy_Z.
      destruct (Z.eqb_spec (expiryTime (clientToken hp)) 0); simpl; congruence. }
    rewrite Ho. rewrite Z.gtb_ltb, <- Z.leb_antisym. reflexivity.
  - unfold withActiveProvider. unfold bind at 1, gets.
    destruct (providerActive now hp); [reflexivity|].
    unfold bind. rewrite getProviderToken_eval. cbn [fst snd].
    destruct (if isIosApp env || negb (tokenTimesOut env) then _ else _);
      reflexivity.
Qed.

(** *** [destroy] *)

(** X21.  After [destroy()] no listener is left, whatever the transport
    makes of its own teardown: notifying tells nobody, and a later
    [disconnect()] tells nobody either. *)
Theorem destroy_silences (teardown : Provider -> Provider) (hp : t) :
  let d := snd (destroy teardown hp) in
  fst (destroy teardown hp) = Returned tt /\
  listeners d = [] /\ log d = log hp /\ _provider d = teardown (_provider hp) /\
  log (snd (notifyListeners d)) = log hp /\
  List.filter is_notified (log (snd (disconnect d))) =
  List.filter is_notified (log hp).
Proof.
  cbv zeta. unfold destroy. run. repeat split.
  - unfold notifyListeners. run. apply app_nil_r.
  - rewrite disconnect_eval. cbv zeta. cbn [snd log set_log listeners List.map].
    rewrite !List.filter_app. simpl.
    destruct (ws (teardown (_provider hp))); simpl;
      rewrite ?app_nil_r; reflexivity.
Qed.

End Handle.

(** *** The properties above at the handles of the scenario *)

(** [docId_of_remote_documents] at two documents of one relay in two
    folders. *)
Lemma docId_of_remote_documents_witness :
  s3rnToYsweetDocId (S3RemoteDocument "R1" "F" "D") =
  s3rnToYsweetDocId (S3RemoteDocument "R1" "G" "D").
Proof.
  apply (docId_of_remote_documents "R1" "F" "D" "R1" "G" "D").
  - reflexivity.
  - split; reflexivity.
Defined.


(** [connect_without_token] at a handle without a socket whose token
    source fails. *)
Lemma connect_without_token_witness :
  fst (connect ScenarioMore.env_down ScenarioMore.hp_new) = Returned false.
Proof.
  rewrite (connect_without_token ScenarioMore.env_down ScenarioMore.hp_new
             TokenAcquisitionFailure).
  - reflexivity.
  - reflexivity.
  - reflexivity.
Defined.



End HasProviderExtra.

(** ** Properties of tagged logging and toasts *)

Module DebugProps.

Import Debug.

(** X22.  A logger is loud or silent for good, as the flag was when
    [curryLog] made it: made with debugging on, each call passes the tag,
    a colon and the arguments on to the function, also after debugging
    was turned off; made with debugging off, no call does anything, also
    after debugging was turned on.  Making a logger changes nothing. *)
Theorem curryLog_captures_flag (initialText : string) (fn : Fn) (s : St) :
  exists logger : Fn,
    curryLog initialText fn s = (Returned logger, s) /\
    forall (flag : bool) (args : list string) (s' : St),
      logger args (snd (setDebugging flag s')) =
      if debugging s
      then fn (initialText :: ": "%string :: args) (snd (setDebugging flag s'))
      else (Returned tt, snd (setDebugging flag s')).
Proof.
  unfold curryLog, bind, gets. cbn [fst snd].
  destruct (debugging s); eexists; split; reflexivity.
Qed.

(** X23.  [toast] shows one notice and returns the error it was given.  In
    a build that is not a debug build the notice is made of the name of
    the error alone: the message never shows. *)
Theorem toast_outcome (BUILD_TYPE : string) (error : JsError) (s : St) :
  fst (toast BUILD_TYPE error s) = Returned error /\
  debugging (snd (toast BUILD_TYPE error s)) = debugging s /\
  (exists text, notices (snd (toast BUILD_TYPE error s)) = notices s ++ [text]) /\
  (BUILD_TYPE <> "debug"%string ->
   forall message,
     notices (snd (toast BUILD_TYPE error s)) =
     notices (snd (toast BUILD_TYPE
                     {| err_name := err_name error; err_message := message |}
                     s))).
Proof.
  unfold toast. destruct (String.eqb_spec BUILD_TYPE "debug") as [->|Hne].
  - split; [reflexivity|]. split; [reflexivity|].
    split; [eexists; reflexivity|]. intros Hne. now contradiction Hne.
  - split; [reflexivity|]. split; [reflexivity|].
    split; [eexists; reflexivity|]. reflexivity.
Qed.

End DebugProps.
